(** * quiz1: the timed quiz runner of gophercises

    A shallow embedding of [quiz1/quiz1.go]: [parseLines], the [problem]
    record and the question loop of [RunQuiz1], together with the parts of
    the Go library the loop leans on ([strings.TrimSpace], the scan
    [fmt.Scanf("%s\n", &answer)], [time.NewTimer] and [select]).

    Conventions.
    - A Go string is taken as the sequence of its runes (code points), the
      view [strings.TrimSpace] and the scanner of [fmt] have of a string
      that is valid UTF-8.
    - Time is counted in nanoseconds since the timer was created.
    - A run-time panic is a value of the result type, not an exception. *)

From Stdlib Require Import ZArith NArith Ascii String Lia Sorted.
From stdpp Require Import base list gmap.

Local Open Scope nat_scope.

(** ** Go strings *)

Module GoString.

Definition rune := N.
Definition gostring := list rune.

(** A Rocq string literal as a Go string (one rune per character). *)
Definition of_string (s : string) : gostring :=
  map N_of_ascii (list_ascii_of_string s).

Definition newline : rune := 10%N.

(** [unicode.IsSpace]: the runes with the Unicode White_Space property. *)
Definition isSpace (r : rune) : bool :=
  ((9 <=? r) && (r <=? 13))%N
  || (r =? 32)%N || (r =? 133)%N || (r =? 160)%N || (r =? 5760)%N
  || ((8192 <=? r) && (r <=? 8202))%N
  || (r =? 8232)%N || (r =? 8233)%N || (r =? 8239)%N
  || (r =? 8287)%N || (r =? 12288)%N.

(** White space other than the line feed, what the scanner calls a space. *)
Definition isBlank (r : rune) : bool := isSpace r && negb (r =? newline)%N.

Fixpoint dropWhile {A} (f : A -> bool) (l : list A) : list A :=
  match l with
  | [] => []
  | x :: l' => if f x then dropWhile f l' else l
  end.

(** [strings.TrimLeftFunc] and [strings.TrimRightFunc]. *)
Definition TrimLeftFunc (s : gostring) (f : rune -> bool) : gostring :=
  dropWhile f s.

Definition TrimRightFunc (s : gostring) (f : rune -> bool) : gostring :=
  rev (dropWhile f (rev s)).

(** [strings.TrimSpace]: the leading runs of white space go first, then the
    trailing ones. *)
Definition TrimSpace (s : gostring) : gostring :=
  TrimRightFunc (TrimLeftFunc s isSpace) isSpace.

(** [a == b] on strings: rune by rune, nothing folded. *)
Fixpoint eqs (a b : gostring) : bool :=
  match a, b with
  | [], [] => true
  | x :: a', y :: b' => (x =? y)%N && eqs a' b'
  | _, _ => false
  end.

(** The words of the documentation of [TrimSpace], as a relation between a
    string [s] and its trimmed form [t]: [t] is [s] without a white prefix
    and a white suffix, and [t] itself neither starts nor ends in white
    space. *)
Definition trimmed_of (s t : gostring) : Prop :=
  (exists pre post,
      s = pre ++ t ++ post
      /\ Forall (fun r => isSpace r = true) pre
      /\ Forall (fun r => isSpace r = true) post)
  /\ (forall r, head t = Some r -> isSpace r = false)
  /\ (forall r, last t = Some r -> isSpace r = false).

End GoString.

(** ** Standard input and the scan of one answer *)

Module Fmt.
Import GoString.

Definition time := N.
Bind Scope N_scope with time.

(** Standard input as the reader goroutines see it: the runes not yet read,
    each with the instant it becomes available, and the instant the stream
    ends, if it ever does. A read of a rune that is not there yet blocks. *)
Record stdin := Stdin { pending : list (time * rune); closes : option time }.

(** How a call of [fmt.Scanf("%s\n", &answer)] ends: it returns at instant
    [ready], having left [answer] in the variable, with [err != nil] when
    [failed]; or it never returns. *)
Inductive scan :=
| Scanned (ready : time) (answer : gostring) (failed : bool) (rest : stdin)
| Hangs.

(** [SkipSpace], and the loop of [advance] before a newline of the format:
    blanks are read and dropped; [t] is the instant reached so far. *)
Fixpoint skipBlanks (t : time) (l : list (time * rune))
  : time * list (time * rune) :=
  match l with
  | (ta, r) :: l' => if isBlank r then skipBlanks (N.max t ta) l' else (t, l)
  | [] => (t, [])
  end.

(** [token(true, notSpace)]: the runes up to the next white space. *)
Fixpoint token (t : time) (l : list (time * rune))
  : gostring * time * list (time * rune) :=
  match l with
  | (ta, r) :: l' =>
      if isSpace r then ([], t, l)
      else let '(tok, t', rest) := token (N.max t ta) l' in (r :: tok, t', rest)
  | [] => ([], t, [])
  end.

(** [fmt.Scanf("%s\n", &answer)] called at instant [now], [answer] being
    the empty string before the call.
    - Verb [%s]: blanks are skipped; end of input gives [io.EOF] and a line
      feed gives "unexpected newline", both before anything is stored;
      otherwise the token is stored in [answer].
    - Newline of the format: blanks are skipped, then a line feed or the
      end of input is accepted; any other rune is read, lost, and reported
      as an error, after [answer] was stored. *)
Definition Scanf_s_nl (now : time) (inp : stdin) : scan :=
  let '(t1, l1) := skipBlanks now (pending inp) in
  match l1 with
  | [] =>
      match closes inp with
      | Some te => Scanned (N.max t1 te) [] true (Stdin [] (closes inp))
      | None => Hangs
      end
  | (ta, r) :: l1' =>
      if (r =? newline)%N
      then Scanned (N.max t1 ta) [] true (Stdin l1' (closes inp))
      else
        let '(tok, t2, l2) := token t1 l1 in
        let '(t3, l3) := skipBlanks t2 l2 in
        match l3 with
        | [] =>
            match closes inp with
            | Some te => Scanned (N.max t3 te) tok false (Stdin [] (closes inp))
            | None => Hangs
            end
        | (tb, c) :: l3' =>
            Scanned (N.max t3 tb) tok (negb (c =? newline)%N)
                    (Stdin l3' (closes inp))
        end
  end.

(** A line typed at instant [t]: the runes of [s] and a line feed. *)
Definition typed (t : time) (s : string) : list (time * rune) :=
  map (fun r => (t, r)) (of_string s ++ [newline]).
Arguments typed t%_N s%_string.

End Fmt.

(** ** The problem table *)

Module Quiz1.
Import GoString Fmt.

(** [type problem struct { question string; answer string }] *)
Record problem := Problem { question : gostring; answer : gostring }.

(** What a Go function yields: a value, or the run-time panic of an index
    expression [a[idx]] on a slice of length [len]. *)
Inductive result (A : Type) :=
| Ok (a : A)
| IndexOutOfRange (idx len : nat).
Arguments Ok {A} a.
Arguments IndexOutOfRange {A} idx len.

(** [line[i]] *)
Definition index (line : list gostring) (i : nat) : result gostring :=
  match line !! i with
  | Some f => Ok f
  | None => IndexOutOfRange i (length line)
  end.

Definition bind {A B} (r : result A) (k : A -> result B) : result B :=
  match r with
  | Ok a => k a
  | IndexOutOfRange i n => IndexOutOfRange i n
  end.

Notation "'do' x <- r ; k" := (bind r (fun x => k))
  (at level 10, x name, r at level 100, k at level 200).

(** The body of the loop of [parseLines]: the struct literal reads
    [line[0]] first and [line[1]] second. *)
Definition parseLine (line : list gostring) : result problem :=
  do q <- index line 0;
  do a <- index line 1;
  Ok {| question := TrimSpace q; answer := TrimSpace a |}.

(** [parseLines]: [ret[i]] is filled in row order; the first row that is
    too short panics and nothing is returned. *)
Fixpoint parseLines (lines : list (list gostring)) : result (list problem) :=
  match lines with
  | [] => Ok []
  | line :: rest =>
      do p <- parseLine line;
      do ps <- parseLines rest;
      Ok (p :: ps)
  end.

(** ** The timer *)

(** Arithmetic of [int64]. *)
Definition wrap64 (z : Z) : Z := ((z + 2 ^ 63) mod 2 ^ 64 - 2 ^ 63)%Z.

Definition Second : Z := 1000000000%Z.

(** The duration handed to [time.NewTimer]: the value of the flag [-limit]
    as a [time.Duration], times [time.Second], in [int64]. *)
Definition limitDuration (timeLimit : Z) : Z := wrap64 (timeLimit * Second).

(** The instant at which the timer of [time.NewTimer(d)], created at
    instant 0, delivers on its channel: at once when [d] is not positive. *)
Definition fires (d : Z) : time := Z.to_N d.

(** ** The question loop *)

(** What the session does that can be seen from outside, in order. The
    program has no call of [timer.Reset]; the action is there so that its
    absence can be said. *)
Inductive action :=
| NewTimer (d : Z)                      (* time.NewTimer(d) *)
| ResetTimer (d : Z)                    (* timer.Reset(d) *)
| Prompt (n : nat) (q : gostring)       (* Printf("Problem #%d: %s = ") *)
| ScanFailed                            (* Println("Failed to scan input!") *)
| TimerFired                            (* case <-timer.C: Println() *)
| Answered (t : time) (a : gostring)    (* case answer := <-answerCh *)
| Score (correct total : nat).          (* Printf("You scored %d out of %d.\n") *)

(** The case a [select] takes. *)
Inductive selected :=
| TimerCase
| AnswerCase (t : time) (a : gostring) (failed : bool) (rest : stdin).

(** [select { case <-timer.C: ...  case answer := <-answerCh: ... }] with
    the timer firing at [deadline] and the reader of the turn ending as
    [sc] says. The communication that can proceed first is taken: the
    answer when the reader delivers before the timer fires, the timer when
    it fires before the reader delivers, or when the reader never does.
    When the reader delivers at the very instant the timer fires both can
    proceed and Go chooses between them at random, here by the bit
    [timerFirst]; this is also the case of a timer that has fired when the
    statement is reached, with a reader whose input was waiting for it. *)
Definition select (deadline : time) (sc : scan) (timerFirst : bool)
  : selected :=
  match sc with
  | Hangs => TimerCase
  | Scanned ready a failed rest =>
      if (ready <? deadline)%N then AnswerCase ready a failed rest
      else if (deadline <? ready)%N then TimerCase
      else if timerFirst then TimerCase
      else AnswerCase ready a failed rest
  end.

(** The diagnostic of a reader whose scan failed; it is printed before the
    reader sends. *)
Definition diagnostic (failed : bool) : list action :=
  if failed then [ScanFailed] else [].

(** The diagnostic of a reader that was ready to send at the very instant
    the timer fired, and lost the choice. A reader that ends later is
    abandoned: what it prints after the loop has been left is not part of
    the session. *)
Definition lostDiagnostic (deadline : time) (sc : scan) : list action :=
  match sc with
  | Scanned ready _ failed _ =>
      if (ready =? deadline)%N then diagnostic failed else []
  | Hangs => []
  end.

(** What changes from turn to turn: the variable [correct], the clock, and
    what is left of standard input. *)
Record vars := Vars { correct : nat; now : time; input : stdin }.

(** One turn of [problemLoop] for the problem [p] at index [i]: what is
    done, and the variables for the next turn, or [None] after
    [break problemLoop]. *)
Definition iteration (deadline : time) (timerFirst : bool)
    (i : nat) (p : problem) (v : vars) : list action * option vars :=
  let sc := Scanf_s_nl (now v) (input v) in
  match select deadline sc timerFirst with
  | TimerCase =>
      (Prompt (S i) (question p)
         :: lostDiagnostic deadline sc ++ [TimerFired],
       None)
  | AnswerCase t a failed rest =>
      (Prompt (S i) (question p) :: diagnostic failed ++ [Answered t a],
       Some {| correct := if eqs a (answer p) then S (correct v) else correct v;
               now := t;
               input := rest |})
  end.

(** [for i, p := range problems { ... }] from index [i] on; [sched i] is
    the random choice of the [select] of turn [i]. The result is what was
    done and the value of [correct] when the loop is left. *)
Fixpoint problemLoop (deadline : time) (sched : nat -> bool)
    (i : nat) (ps : list problem) (v : vars) : list action * nat :=
  match ps with
  | [] => ([], correct v)
  | p :: ps' =>
      match iteration deadline (sched i) i p v with
      | (out, None) => (out, correct v)
      | (out, Some v') =>
          let '(out', c) := problemLoop deadline sched (S i) ps' v' in
          (out ++ out', c)
      end
  end.

(** The states the loop passes through: [visits dl sched i ps v j ps' v']
    when the loop entered at index [i] with [ps] to go and variables [v]
    comes to index [j] with [ps'] to go and variables [v']. *)
Inductive visits (deadline : time) (sched : nat -> bool)
  : nat -> list problem -> vars -> nat -> list problem -> vars -> Prop :=
| visits_here i ps v : visits deadline sched i ps v i ps v
| visits_turn i p ps v out v1 j ps' v' :
    iteration deadline (sched i) i p v = (out, Some v1) ->
    visits deadline sched (S i) ps v1 j ps' v' ->
    visits deadline sched i (p :: ps) v j ps' v'.

(** What a session reports. *)
Record report := Report { output : list action; score : nat; total : nat }.

(** Lines 28 to 53 of [RunQuiz1]: the timer, the loop, the score line. *)
Definition session (problems : list problem) (timeLimit : Z)
    (inp : stdin) (sched : nat -> bool) : report :=
  let d := limitDuration timeLimit in
  let '(out, c) :=
    problemLoop (fires d) sched 0 problems
                {| correct := 0; now := 0%N; input := inp |} in
  {| output := NewTimer d :: out ++ [Score c (length problems)];
     score := c;
     total := length problems |}.

(** What [os.Open] and [csv.Reader.ReadAll] gave for the file [-csv]. *)
Inductive loaded :=
| OpenFailed (csvFileName : gostring)
| ReadAllFailed
| Rows (lines : list (list gostring)).

(** How the process ends. *)
Inductive outcome :=
| Exit1 (msg : gostring)                (* Println(msg); os.Exit(1) *)
| Panicked (idx len : nat)              (* index out of range in parseLines *)
| Finished (r : report).

(** [exit]: the message is printed and the process ends with status 1. *)
Definition exit (msg : gostring) : outcome := Exit1 msg.

(** [RunQuiz1], the flags parsed: [file] is what came of the file named by
    [-csv], [timeLimit] the value of [-limit]. *)
Definition RunQuiz1 (file : loaded) (timeLimit : Z)
    (inp : stdin) (sched : nat -> bool) : outcome :=
  match file with
  | OpenFailed csvFileName =>
      exit (of_string "Failed to open the CSV file: " ++ csvFileName ++ [newline])
  | ReadAllFailed => exit (of_string "Failed to parse the provided CSV file.")
  | Rows lines =>
      match parseLines lines with
      | IndexOutOfRange idx len => Panicked idx len
      | Ok problems => Finished (session problems timeLimit inp sched)
      end
  end.

End Quiz1.

(** ** Notions used in the statements *)

Module Notions.
Import GoString Fmt Quiz1.

(** The latest of [t] and the instants of the runes of [l]. *)
Definition latest (t : time) (l : list (time * rune)) : time :=
  fold_left (fun acc x => N.max acc (fst x)) l t.

(** Runs of stamped runes that are all blank, and with no white space. *)
Definition blanks (l : list (time * rune)) : Prop :=
  Forall (fun x => isBlank (snd x) = true) l.

Definition solid (l : list (time * rune)) : Prop :=
  Forall (fun x => isSpace (snd x) = false) l.

(** The variables on entering the loop. *)
Definition start (inp : stdin) : vars :=
  {| correct := 0; now := 0%N; input := inp |}.

(** What a turn may do: prompts, diagnostics, the timer case, and answers
    that came no later than the deadline; no operation on the timer. *)
Definition loop_action (dl : time) (a : action) : Prop :=
  match a with
  | Prompt _ _ | ScanFailed | TimerFired => True
  | Answered t _ => (t <= dl)%N
  | NewTimer _ | ResetTimer _ | Score _ _ => False
  end.

(** The deadline comes first for the turn entered with variables [v]: the
    scan of the answer returns after the timer has fired, or never. *)
Definition deadline_first (dl : time) (v : vars) : Prop :=
  match Scanf_s_nl (now v) (input v) with
  | Scanned ready _ _ _ => (dl < ready)%N
  | Hangs => True
  end.

(** Nothing reaches standard input at the instant [dl]: no rune, and not
    the end of the stream. *)
Definition quiet_at (dl : time) (inp : stdin) : Prop :=
  ~ In dl (map fst (pending inp)) /\ closes inp <> Some dl.

(** The variables after the answer [a], delivered at [ready], was taken
    for the problem [p]. *)
Definition answered (v : vars) (p : problem) (ready : time) (a : gostring)
    (rest : stdin) : vars :=
  {| correct := if eqs a (answer p) then S (correct v) else correct v;
     now := ready;
     input := rest |}.

(** Sample data: the two problems of the scenarios, ten seconds. *)
Definition two_problems : list problem :=
  [ {| question := of_string "2+2"; answer := of_string "4" |};
    {| question := of_string "3+3"; answer := of_string "6" |} ].

Definition one_second : time := 1000000000%N.

End Notions.

(** ** Reading a trace *)

Module Trace.
Import GoString Fmt Quiz1 Notions.

(** The prompts of a trace, the answers that were taken, and the instants
    at which they were taken, each in the order of the trace. *)
Definition prompts_of (out : list action) : list (nat * gostring) :=
  flat_map (fun a => match a with Prompt n q => [(n, q)] | _ => [] end) out.

Definition answers_of (out : list action) : list gostring :=
  flat_map (fun a => match a with Answered _ a => [a] | _ => [] end) out.

Definition instants_of (out : list action) : list time :=
  flat_map (fun a => match a with Answered t _ => [t] | _ => [] end) out.

(** The prompts of the problems [ps], the first of them at index [i]. *)
Fixpoint numbered (i : nat) (ps : list problem) : list (nat * gostring) :=
  match ps with
  | [] => []
  | p :: ps' => (S i, question p) :: numbered (S i) ps'
  end.

(** How many of the answers [given] equal the expected answer of the
    problem at the same place. *)
Fixpoint matches (given : list gostring) (ps : list problem) : nat :=
  match given, ps with
  | a :: given', p :: ps' =>
      (if eqs a (answer p) then 1 else 0) + matches given' ps'
  | _, _ => 0
  end.

(** A string without white space. *)
Definition spaceless (s : gostring) : bool :=
  forallb (fun r => negb (isSpace r)) s.

(** The problems whose expected answer a scan can deliver at all. *)
Definition reachable (ps : list problem) : list problem :=
  filter (fun p => spaceless (answer p) = true) ps.

(** The problems whose expected answer is the empty string. *)
Definition unanswered (ps : list problem) : list problem :=
  filter (fun p => answer p = []) ps.

(** What the loop does from index [i] on when every read ends at once with
    the empty string at instant [t]. *)
Fixpoint drained (i : nat) (ps : list problem) (t : time) : list action :=
  match ps with
  | [] => []
  | p :: ps' =>
      Prompt (S i) (question p) :: ScanFailed :: Answered t []
        :: drained (S i) ps' t
  end.

(** A typed line: blanks, one word, blanks, and the line feed, each rune
    with its instant. *)
Record entry := Entry {
  lead : list (time * rune);
  word : list (time * rune);
  trail : list (time * rune);
  enter : time
}.

Definition runes_of (e : entry) : list (time * rune) :=
  lead e ++ word e ++ trail e ++ [(enter e, newline)].

(** The word of a typed line, as a string. *)
Definition typed_word (e : entry) : gostring := map snd (word e).

Definition well_typed (e : entry) : Prop :=
  blanks (lead e) /\ solid (word e) /\ word e <> [] /\ blanks (trail e).

Definition before (dl : time) (l : list (time * rune)) : Prop :=
  Forall (fun x => (fst x < dl)%N) l.

(** Sample data: the line [4 ] typed at 5 ns, the line [ 6] typed at 7 ns
    and entered at 8 ns. *)
Definition two_lines : list entry :=
  [ {| lead := []; word := [(5, 52)]; trail := [(5, 32)]; enter := 5 |};
    {| lead := [(7, 32)]; word := [(7, 54)]; trail := []; enter := 8 |} ]%N.

(** The part of [Scanf_s_nl] after the first run of blanks. *)
Definition scan_from (t1 : time) (l1 : list (time * rune))
    (cl : option time) : scan :=
  match l1 with
  | [] =>
      match cl with
      | Some te => Scanned (N.max t1 te) [] true (Stdin [] cl)
      | None => Hangs
      end
  | (ta, r) :: l1' =>
      if (r =? newline)%N
      then Scanned (N.max t1 ta) [] true (Stdin l1' cl)
      else
        let '(tok, t2, l2) := token t1 l1 in
        let '(t3, l3) := skipBlanks t2 l2 in
        match l3 with
        | [] =>
            match cl with
            | Some te => Scanned (N.max t3 te) tok false (Stdin [] cl)
            | None => Hangs
            end
        | (tb, c) :: l3' =>
            Scanned (N.max t3 tb) tok (negb (c =? newline)%N) (Stdin l3' cl)
        end
  end.

(** A scan that returns after the instant [dl], or never. *)
Definition late (dl : time) (sc : scan) : Prop :=
  match sc with
  | Scanned ready _ _ _ => (dl < ready)%N
  | Hangs => True
  end.

End Trace.

(** ** json_parsing: dropping the key Age *)

Module JsonParsing.
Import GoString.

(** [for k := range m { if k == "Age" { delete(m, k) } }] on a
    [map[string]interface{}], the keys coming in the order [ks]: the order
    of a [range] over a map is not specified. *)
Definition removeAge {V : Type} (ks : list gostring) (m : gmap gostring V)
  : gmap gostring V :=
  foldl (fun m k => if eqs k (of_string "Age") then delete k m else m) m ks.

End JsonParsing.

(** * Properties *)

(** ** Strings *)

Module GoStringFacts.
Import GoString.

Lemma eqs_eq (a b : gostring) : eqs a b = true <-> a = b.
Proof.
  revert b. induction a as [|x a IH]; intros [|y b]; simpl; try easy.
  rewrite andb_true_iff, N.eqb_eq, IH. split.
  - intros [-> ->]. reflexivity.
  - intros H. injection H as -> ->. auto.
Qed.

Lemma eqs_refl (a : gostring) : eqs a a = true.
Proof. apply eqs_eq. reflexivity. Qed.

Section DropWhile.
Context {A : Type} (f : A -> bool).

Lemma dropWhile_split (l : list A) :
  exists pre, l = pre ++ dropWhile f l /\ Forall (fun x => f x = true) pre.
Proof.
  induction l as [|x l [pre [E F]]]; simpl.
  - exists []. split; [reflexivity | constructor].
  - destruct (f x) eqn:Hx.
    + exists (x :: pre). split; [simpl; congruence | constructor; assumption].
    + exists []. split; [reflexivity | constructor].
Qed.

Lemma dropWhile_head (l : list A) (x : A) :
  head (dropWhile f l) = Some x -> f x = false.
Proof.
  induction l as [|y l IH]; simpl; [discriminate|].
  destruct (f y) eqn:Hy; [exact IH|].
  simpl. intros [= <-]. exact Hy.
Qed.

Lemma dropWhile_stop (l : list A) :
  (forall x, head l = Some x -> f x = false) -> dropWhile f l = l.
Proof.
  destruct l as [|y l]; simpl; [reflexivity|].
  intros H. rewrite (H y eq_refl). reflexivity.
Qed.

Lemma dropWhile_all (pre l : list A) :
  Forall (fun x => f x = true) pre -> dropWhile f (pre ++ l) = dropWhile f l.
Proof.
  induction 1 as [|x pre Hx _ IH]; simpl; [reflexivity|].
  rewrite Hx. exact IH.
Qed.
End DropWhile.

Lemma head_rev {A} (l : list A) : head (rev l) = last l.
Proof.
  destruct l as [|x l _] using rev_ind; [reflexivity|].
  rewrite rev_app_distr, last_snoc. reflexivity.
Qed.

Lemma last_rev {A} (l : list A) : last (rev l) = head l.
Proof. rewrite <- head_rev, rev_involutive. reflexivity. Qed.

Lemma head_app_some {A} (l k : list A) (x : A) :
  head l = Some x -> head (l ++ k) = Some x.
Proof. destruct l; simpl; [discriminate | auto]. Qed.

(** [TrimSpace] does what its documentation says. *)
Lemma TrimSpace_trimmed (s : gostring) : trimmed_of s (TrimSpace s).
Proof.
  unfold TrimSpace, TrimRightFunc, TrimLeftFunc.
  destruct (dropWhile_split isSpace s) as [pre [Es Fpre]].
  set (m := dropWhile isSpace s) in *.
  destruct (dropWhile_split isSpace (rev m)) as [post [Em Fpost]].
  set (t := dropWhile isSpace (rev m)) in *.
  assert (Hm : m = rev t ++ rev post).
  { rewrite <- rev_app_distr, <- Em, rev_involutive. reflexivity. }
  split; [|split].
  - exists pre, (rev post). split; [|split].
    + rewrite <- Hm. exact Es.
    + exact Fpre.
    + apply Forall_forall. intros r Hr. apply list_elem_of_In, in_rev in Hr.
      rewrite Forall_forall in Fpost. apply Fpost, list_elem_of_In, Hr.
  - intros r Hr. apply (dropWhile_head isSpace s).
    fold m. rewrite Hm. apply head_app_some, Hr.
  - intros r Hr. rewrite last_rev in Hr.
    apply (dropWhile_head isSpace (rev m)), Hr.
Qed.

(** A string that neither starts nor ends in white space is what is left
    of it with white space put around. *)
Lemma TrimSpace_padded (pre t post : gostring) :
  Forall (fun r => isSpace r = true) pre ->
  Forall (fun r => isSpace r = true) post ->
  (forall r, head t = Some r -> isSpace r = false) ->
  (forall r, last t = Some r -> isSpace r = false) ->
  TrimSpace (pre ++ t ++ post) = t.
Proof.
  intros Fpre Fpost Hh Hl. unfold TrimSpace, TrimRightFunc, TrimLeftFunc.
  rewrite dropWhile_all by exact Fpre.
  destruct t as [|x t].
  - simpl. clear Hh Hl.
    assert (E : dropWhile isSpace post = []).
    { rewrite <- (app_nil_r post) at 1. rewrite dropWhile_all by exact Fpost.
      reflexivity. }
    rewrite E. reflexivity.
  - rewrite (dropWhile_stop isSpace ((x :: t) ++ post)).
    2:{ simpl. intros r Hr. apply Hh. exact Hr. }
    rewrite rev_app_distr, dropWhile_all.
    2:{ apply Forall_forall. intros r Hr. apply list_elem_of_In in Hr.
        apply in_rev in Hr. rewrite Forall_forall in Fpost.
        apply Fpost, list_elem_of_In, Hr. }
    rewrite dropWhile_stop; [apply rev_involutive|].
    intros r Hr. rewrite head_rev in Hr. apply Hl, Hr.
Qed.

End GoStringFacts.

(** ** parseLines *)

Module ParseLinesFacts.
Import GoString Fmt Quiz1 GoStringFacts.

Lemma parseLine_two (line : list gostring) :
  2 <= length line ->
  exists f0 f1,
    line !! 0 = Some f0 /\ line !! 1 = Some f1
    /\ parseLine line = Ok {| question := TrimSpace f0; answer := TrimSpace f1 |}.
Proof.
  destruct line as [|f0 [|f1 line]]; simpl; try lia.
  intros _. exists f0, f1. auto.
Qed.

Lemma parseLine_short (line : list gostring) :
  length line < 2 ->
  parseLine line = IndexOutOfRange (length line) (length line).
Proof.
  destruct line as [|f0 [|f1 line]]; simpl; try lia; reflexivity.
Qed.

Lemma parseLine_take (line : list gostring) :
  parseLine (take 2 line) = parseLine line.
Proof. destruct line as [|f0 [|f1 line]]; reflexivity. Qed.

Lemma parseLines_all_two (lines : list (list gostring)) :
  Forall (fun line => 2 <= length line) lines ->
  exists ps,
    parseLines lines = Ok ps
    /\ Forall2 (fun line p => parseLine line = Ok p) lines ps.
Proof.
  induction 1 as [|line lines Hline _ [ps [E F]]]; simpl.
  - exists []. split; [reflexivity | constructor].
  - destruct (parseLine_two line Hline) as (f0 & f1 & _ & _ & Ep).
    rewrite Ep, E. simpl. eexists. split; [reflexivity|].
    constructor; assumption.
Qed.

Lemma parseLines_panic (lines : list (list gostring)) (idx len : nat) :
  parseLines lines = IndexOutOfRange idx len ->
  exists line, In line lines /\ length line = len /\ idx = len /\ len < 2.
Proof.
  induction lines as [|line lines IH]; simpl; [discriminate|].
  destruct (Nat.lt_ge_cases (length line) 2) as [Hs | Hl].
  - rewrite (parseLine_short line Hs). simpl. intros [= <- <-].
    exists line. auto.
  - destruct (parseLine_two line Hl) as (f0 & f1 & _ & _ & Ep).
    rewrite Ep. simpl. destruct (parseLines lines) as [ps | i n]; simpl.
    + discriminate.
    + intros [= -> ->]. destruct (IH eq_refl) as (l & Hin & Hrest).
      exists l. auto.
Qed.

(** C9. [parseLines] reads fields 0 and 1 of each row and nothing else: it
    returns normally exactly when every row has at least two fields; a
    panic is the index expression on a row with fewer than two fields; and
    there is such an input, the single row with one field, where the read
    of the second field is out of range. *)
Theorem C9_parseLines_two_field_precondition :
  (forall lines : list (list gostring),
      (exists ps, parseLines lines = Ok ps)
      <-> Forall (fun line => 2 <= length line) lines)
  /\ (forall lines : list (list gostring),
         parseLines (map (take 2) lines) = parseLines lines)
  /\ (forall (lines : list (list gostring)) idx len,
         parseLines lines = IndexOutOfRange idx len ->
         exists line, In line lines /\ length line = len /\ idx = len /\ len < 2)
  /\ parseLines [[of_string "2+2"]] = IndexOutOfRange 1 1.
Proof.
  split; [|split; [|split]].
  - intros lines. split.
    + intros [ps E]. apply Forall_forall. intros line Hin.
      apply list_elem_of_In in Hin.
      destruct (Nat.lt_ge_cases (length line) 2) as [Hs | Hl]; [|exact Hl].
      exfalso. revert ps E.
      induction lines as [|l lines IH]; [destruct Hin|].
      simpl. intros ps.
      destruct (Nat.lt_ge_cases (length l) 2) as [Hs' | Hl'].
      * rewrite (parseLine_short l Hs'). discriminate.
      * destruct Hin as [-> | Hin]; [lia|].
        destruct (parseLine_two l Hl') as (f0 & f1 & _ & _ & Ep).
        rewrite Ep. simpl. destruct (parseLines lines) as [qs|]; simpl.
        -- intros _. exact (IH Hin qs eq_refl).
        -- discriminate.
    + intros H. destruct (parseLines_all_two lines H) as [ps [E _]].
      exists ps. exact E.
  - induction lines as [|l lines IH]; simpl; [reflexivity|].
    rewrite parseLine_take, IH. reflexivity.
  - exact parseLines_panic.
  - reflexivity.
Qed.

(** C10. When every row has at least two fields, [parseLines] returns as
    many problems as there are rows, in the order of the rows, and the
    question and the answer of problem [i] are the first and the second
    field of row [i] without their leading and trailing white space. *)
Theorem C10_parseLines_rows_in_order (lines : list (list gostring)) :
  Forall (fun line => 2 <= length line) lines ->
  exists ps,
    parseLines lines = Ok ps
    /\ length ps = length lines
    /\ forall i line, lines !! i = Some line ->
         exists f0 f1 p,
           line !! 0 = Some f0 /\ line !! 1 = Some f1 /\ ps !! i = Some p
           /\ question p = TrimSpace f0 /\ answer p = TrimSpace f1
           /\ trimmed_of f0 (question p) /\ trimmed_of f1 (answer p).
Proof.
  intros H. destruct (parseLines_all_two lines H) as [ps [E F]].
  exists ps. split; [exact E|]. split.
  - symmetry. eapply Forall2_length, F.
  - intros i line Hi.
    destruct (Forall2_lookup_l _ _ _ _ _ F Hi) as (p & Hp & Ep).
    assert (Hlen : 2 <= length line).
    { rewrite Forall_forall in H. apply H. eapply list_elem_of_lookup_2, Hi. }
    destruct (parseLine_two line Hlen) as (f0 & f1 & E0 & E1 & Ep').
    rewrite Ep' in Ep. injection Ep as <-.
    exists f0, f1, {| question := TrimSpace f0; answer := TrimSpace f1 |}.
    simpl. repeat split; auto using TrimSpace_trimmed;
      apply TrimSpace_trimmed.
Qed.

Lemma C10_parseLines_rows_in_order_witness :
  Forall (fun line : list gostring => 2 <= length line)
         [[of_string " 2+2 "; of_string " 4 "]; [of_string "3+3"; of_string "6"]]
  /\ exists ps,
    parseLines [[of_string " 2+2 "; of_string " 4 "]; [of_string "3+3"; of_string "6"]]
      = Ok ps
    /\ length ps = 2.
Proof.
  assert (H : Forall (fun line : list gostring => 2 <= length line)
         [[of_string " 2+2 "; of_string " 4 "]; [of_string "3+3"; of_string "6"]]).
  { repeat constructor. }
  split; [exact H|].
  destruct (C10_parseLines_rows_in_order _ H) as (ps & E & L & _).
  exists ps. split; [exact E | exact L].
Defined.

Example parseLines_trims :
  parseLines [[of_string " 2+2 "; of_string " 4 "]; [of_string "3+3"; of_string "6"]]
  = Ok [ {| question := of_string "2+2"; answer := of_string "4" |};
         {| question := of_string "3+3"; answer := of_string "6" |} ].
Proof. reflexivity. Qed.

End ParseLinesFacts.

(** ** The scan *)

Module ScanFacts.
Import GoString Fmt Quiz1 Notions GoStringFacts.

Lemma isBlank_isSpace (r : rune) : isBlank r = true -> isSpace r = true.
Proof. unfold isBlank. rewrite andb_true_iff. tauto. Qed.

Lemma isBlank_newline : isBlank newline = false.
Proof. reflexivity. Qed.

Lemma solid_not_blank (r : rune) : isSpace r = false -> isBlank r = false.
Proof. unfold isBlank. intros ->. reflexivity. Qed.

Lemma skipBlanks_blanks (t : time) (bl l : list (time * rune)) :
  blanks bl ->
  (forall x, head l = Some x -> isBlank (snd x) = false) ->
  skipBlanks t (bl ++ l) = (latest t bl, l).
Proof.
  intros Hb Hl. revert t. induction Hb as [|[ta r] bl Hr _ IH]; intros t.
  - simpl. destruct l as [|[tb c] l]; [reflexivity|].
    pose proof (Hl (tb, c) eq_refl) as Hc. simpl in *. rewrite Hc. reflexivity.
  - simpl in *. rewrite Hr. apply IH.
Qed.

Lemma token_solid (t : time) (tk l : list (time * rune)) :
  solid tk ->
  (forall x, head l = Some x -> isSpace (snd x) = true) ->
  token t (tk ++ l) = (map snd tk, latest t tk, l).
Proof.
  intros Hs Hl. revert t. induction Hs as [|[ta r] tk Hr _ IH]; intros t.
  - simpl. destruct l as [|[tb c] l]; [reflexivity|].
    pose proof (Hl (tb, c) eq_refl) as Hc. simpl in *. rewrite Hc. reflexivity.
  - simpl in *. rewrite Hr, IH. reflexivity.
Qed.

Lemma latest_app (t : time) (l k : list (time * rune)) :
  latest t (l ++ k) = latest (latest t l) k.
Proof. apply fold_left_app. Qed.

Lemma latest_ge (t : time) (l : list (time * rune)) : (t <= latest t l)%N.
Proof.
  unfold latest. revert t.
  induction l as [|[ta r] l IH]; intros t; simpl; [apply N.le_refl|].
  eapply N.le_trans; [apply N.le_max_l | apply IH].
Qed.

(** A line made of one token, with blanks before and after it, is scanned
    without error: the token is delivered, the line is used up. *)
Lemma Scanf_one_token (now : time) (bl1 tk bl2 more : list (time * rune))
    (tn : time) (cl : option time) :
  blanks bl1 -> solid tk -> tk <> [] -> blanks bl2 ->
  Scanf_s_nl now (Stdin (bl1 ++ tk ++ bl2 ++ (tn, newline) :: more) cl)
  = Scanned (latest now (bl1 ++ tk ++ bl2 ++ [(tn, newline)]))
            (map snd tk) false (Stdin more cl).
Proof.
  intros B1 S B2' B2. unfold Scanf_s_nl. simpl pending.
  destruct tk as [|[ta r] tk]; [congruence|].
  pose proof (Forall_inv S) as Hr. simpl in Hr.
  rewrite skipBlanks_blanks; [|exact B1|].
  2:{ simpl. intros x [= <-]. apply solid_not_blank, Hr. }
  simpl app. cbv beta iota.
  assert (Hnl : (r =? newline)%N = false).
  { destruct (r =? newline)%N eqn:E; [|reflexivity].
    apply N.eqb_eq in E. subst r. discriminate Hr. }
  rewrite Hnl.
  change ((ta, r) :: tk ++ bl2 ++ (tn, newline) :: more)
    with (((ta, r) :: tk) ++ bl2 ++ (tn, newline) :: more).
  rewrite token_solid; [|exact S|].
  2:{ destruct bl2 as [|[tb c] bl2]; simpl.
      - intros x [= <-]. reflexivity.
      - intros x [= <-]. apply isBlank_isSpace.
        exact (Forall_inv B2). }
  cbv beta iota. rewrite skipBlanks_blanks; [|exact B2|].
  2:{ simpl. intros x [= <-]. reflexivity. }
  cbv beta iota. simpl closes. rewrite N.eqb_refl. simpl negb.
  f_equal.
  change ((ta, r) :: tk ++ bl2 ++ [(tn, newline)])
    with (((ta, r) :: tk) ++ bl2 ++ [(tn, newline)]).
  rewrite !latest_app. reflexivity.
Qed.

(** Where the instant of return of a scan comes from, and what it leaves of
    the input. *)
Lemma skipBlanks_origin (t : time) (l : list (time * rune)) t' l' :
  skipBlanks t l = (t', l') ->
  (t' = t \/ In t' (map fst l)) /\ (exists used, l = used ++ l') /\ (t <= t')%N.
Proof.
  revert t. induction l as [|[ta r] l IH]; intros t; simpl.
  - intros [= <- <-]. split; [auto|]. split; [exists []; reflexivity | lia].
  - destruct (isBlank r).
    + intros H. destruct (IH _ H) as (Ho & [used Hu] & Hle). split; [|split].
      * destruct Ho as [-> | Ho]; [|auto].
        destruct (N.max_spec t ta) as [[_ ->] | [_ ->]]; auto.
      * exists ((ta, r) :: used). simpl. congruence.
      * lia.
    + intros [= <- <-]. split; [auto|]. split; [exists []; reflexivity | lia].
Qed.

Lemma token_origin (t : time) (l : list (time * rune)) tok t' l' :
  token t l = (tok, t', l') ->
  (t' = t \/ In t' (map fst l)) /\ (exists used, l = used ++ l') /\ (t <= t')%N.
Proof.
  revert t tok. induction l as [|[ta r] l IH]; intros t tok; simpl.
  - intros [= <- <- <-]. split; [auto|]. split; [exists []; reflexivity | lia].
  - destruct (isSpace r).
    + intros [= <- <- <-]. split; [auto|]. split; [exists []; reflexivity | lia].
    + destruct (token (N.max t ta) l) as [[tok1 t1] l1] eqn:E.
      intros [= <- <- <-]. destruct (IH _ _ E) as (Ho & [used Hu] & Hle).
      split; [|split].
      * destruct Ho as [-> | Ho]; [|auto].
        destruct (N.max_spec t ta) as [[_ ->] | [_ ->]]; auto.
      * exists ((ta, r) :: used). simpl. congruence.
      * lia.
Qed.

Lemma Scanf_origin (now : time) (inp : stdin) ready a failed rest :
  Scanf_s_nl now inp = Scanned ready a failed rest ->
  (ready = now \/ In ready (map fst (pending inp)) \/ closes inp = Some ready)
  /\ (exists used, pending inp = used ++ pending rest)
  /\ closes rest = closes inp
  /\ (now <= ready)%N.
Proof.
  unfold Scanf_s_nl. destruct inp as [l cl]. simpl pending. simpl closes.
  destruct (skipBlanks now l) as [t1 l1] eqn:E1.
  destruct (skipBlanks_origin _ _ _ _ E1) as (O1 & [u1 U1] & L1).
  assert (Hmax : forall t tb, (t1 <= t)%N ->
             (t = now \/ In t (map fst l)) ->
             In tb (map fst l) ->
             (N.max t tb = now \/ In (N.max t tb) (map fst l))
             /\ (now <= N.max t tb)%N).
  { intros t tb Ht Ho Hb. split; [|lia].
    destruct (N.max_spec t tb) as [[_ ->] | [_ ->]]; auto. }
  assert (Hcl : forall t te, (t1 <= t)%N ->
             (t = now \/ In t (map fst l)) -> cl = Some te ->
             (N.max t te = now \/ In (N.max t te) (map fst l)
              \/ cl = Some (N.max t te))
             /\ (now <= N.max t te)%N).
  { intros t te Ht Ho ->. split; [|lia].
    destruct (N.max_spec t te) as [[_ ->] | [_ ->]]; tauto. }
  destruct l1 as [|[ta r] l1'].
  - destruct cl as [te|]; [|discriminate].
    intros [= <- <- <- <-]. simpl.
    destruct (Hcl t1 te (N.le_refl _) O1 eq_refl) as [Ho Hle].
    repeat split; auto. exists l. rewrite app_nil_r. reflexivity.
  - assert (Hta : In ta (map fst l)).
    { rewrite U1, map_app. apply in_or_app. right. left. reflexivity. }
    destruct (r =? newline)%N.
    + intros [= <- <- <- <-]. simpl.
      destruct (Hmax t1 ta (N.le_refl _) O1 Hta) as [Ho Hle].
      repeat split; [tauto | | exact Hle].
      exists (u1 ++ [(ta, r)]). rewrite <- app_assoc. exact U1.
    + destruct (token t1 ((ta, r) :: l1')) as [[tok t2] l2] eqn:E2.
      destruct (token_origin _ _ _ _ _ E2) as (O2 & [u2 U2] & L2).
      destruct (skipBlanks t2 l2) as [t3 l3] eqn:E3.
      destruct (skipBlanks_origin _ _ _ _ E3) as (O3 & [u3 U3] & L3).
      assert (Hsub : forall t, In t (map fst l3) \/ In t (map fst l2)
                               \/ In t (map fst ((ta, r) :: l1'))
                               -> In t (map fst l)).
      { intros t Ht. rewrite U1, map_app. apply in_or_app. right.
        destruct Ht as [Ht | [Ht | Ht]]; [| |exact Ht];
          rewrite U2, map_app; apply in_or_app; right; [|exact Ht].
        rewrite U3, map_app. apply in_or_app. right. exact Ht. }
      assert (O23 : t3 = now \/ In t3 (map fst l)).
      { destruct O3 as [-> | O3]; [|right; apply Hsub; tauto].
        destruct O2 as [-> | O2]; [exact O1 | right; apply Hsub; tauto]. }
      destruct l3 as [|[tb c] l3'].
      * destruct cl as [te|]; [|discriminate].
        intros [= <- <- <- <-]. simpl.
        destruct (Hcl t3 te ltac:(lia) O23 eq_refl) as [Ho Hle].
        repeat split; auto. exists l. rewrite app_nil_r. reflexivity.
      * intros [= <- <- <- <-]. simpl.
        assert (Htb : In tb (map fst l)).
        { apply Hsub. left. left. reflexivity. }
        destruct (Hmax t3 tb ltac:(lia) O23 Htb) as [Ho Hle].
        repeat split; [tauto | | exact Hle].
        exists (u1 ++ u2 ++ u3 ++ [(tb, c)]).
        rewrite U1, U2, U3, <- !app_assoc. reflexivity.
Qed.

(** A failed scan leaves in [answer] what it had stored: nothing when the
    error came before the token (end of input, empty line), the token when
    the line went on after it. A scan that failed at the end of the input
    delivers the empty string. *)
Lemma Scanf_eof (now te : time) :
  Scanf_s_nl now (Stdin [] (Some te)) = Scanned (N.max now te) [] true (Stdin [] (Some te)).
Proof. reflexivity. Qed.

Lemma Scanf_empty_line (now tn : time) more cl :
  Scanf_s_nl now (Stdin ((tn, newline) :: more) cl)
  = Scanned (N.max now tn) [] true (Stdin more cl).
Proof. reflexivity. Qed.

End ScanFacts.

(** ** The session *)

Module SessionFacts.
Import GoString Fmt Quiz1 Notions GoStringFacts ScanFacts.

(** *** One turn of the loop *)

(** A turn that goes on to the next problem received an answer: the scan
    returned no later than the deadline, the answer was compared with the
    expected one, and [correct] went up by one exactly on equality. *)
Lemma iteration_next dl tf i p v out v' :
  iteration dl tf i p v = (out, Some v') ->
  exists t a failed rest,
    Scanf_s_nl (now v) (input v) = Scanned t a failed rest
    /\ (now v <= t)%N /\ (t <= dl)%N
    /\ out = Prompt (S i) (question p) :: diagnostic failed ++ [Answered t a]
    /\ v' = {| correct := if eqs a (answer p) then S (correct v) else correct v;
               now := t; input := rest |}.
Proof.
  unfold iteration, select.
  destruct (Scanf_s_nl (now v) (input v)) as [t a failed rest|] eqn:Es;
    [|discriminate].
  destruct (Scanf_origin _ _ _ _ _ _ Es) as (_ & _ & _ & Hnow).
  destruct (N.ltb_spec t dl) as [H1 | H1].
  - intros [= <- <-]. exists t, a, failed, rest. repeat split; auto. lia.
  - destruct (N.ltb_spec dl t) as [H2 | H2]; [discriminate|].
    destruct tf; [discriminate|].
    intros [= <- <-]. exists t, a, failed, rest. repeat split; auto.
Qed.

(** A turn that leaves the loop took the timer case: after the prompt
    nothing is evaluated. *)
Lemma iteration_break dl tf i p v out :
  iteration dl tf i p v = (out, None) ->
  exists d, out = Prompt (S i) (question p) :: d ++ [TimerFired]
            /\ (d = [] \/ d = [ScanFailed]).
Proof.
  unfold iteration. destruct (select _ _ _); [|discriminate].
  intros [= <-]. eexists. split; [reflexivity|].
  unfold lostDiagnostic. destruct (Scanf_s_nl _ _) as [t a [] rest|]; auto;
    destruct (_ =? _)%N; simpl; auto.
Qed.

Lemma diagnostic_loop_action dl failed :
  Forall (loop_action dl) (diagnostic failed).
Proof. destruct failed; repeat constructor. Qed.

Lemma iteration_loop_actions dl tf i p v out r :
  iteration dl tf i p v = (out, r) -> Forall (loop_action dl) out.
Proof.
  destruct r as [v'|]; intros H.
  - apply iteration_next in H as (t & a & failed & rest & _ & _ & Ht & -> & _).
    constructor; [exact I|]. apply Forall_app. split.
    + apply diagnostic_loop_action.
    + repeat constructor. exact Ht.
  - apply iteration_break in H as (d & -> & Hd).
    constructor; [exact I|]. apply Forall_app.
    split; [|repeat constructor].
    destruct Hd as [-> | ->]; repeat constructor.
Qed.

Lemma iteration_prompts dl tf i p v out r n q :
  iteration dl tf i p v = (out, r) -> In (Prompt n q) out -> n = S i.
Proof.
  intros H Hin. assert (E : exists d, out = Prompt (S i) (question p) :: d
                              /\ forall m s, ~ In (Prompt m s) d).
  { destruct r as [v'|].
    - apply iteration_next in H as (t & a & failed & rest & _ & _ & _ & -> & _).
      eexists. split; [reflexivity|]. intros m s Hm.
      apply in_app_or in Hm as [Hm | [Hm | []]]; [|discriminate].
      destruct failed; simpl in Hm; [destruct Hm as [Hm | []]; discriminate | exact Hm].
    - apply iteration_break in H as (d & -> & Hd).
      eexists. split; [reflexivity|]. intros m s Hm.
      apply in_app_or in Hm as [Hm | [Hm | []]]; [|discriminate].
      destruct Hd as [-> | ->]; simpl in Hm; [exact Hm|].
      destruct Hm as [Hm | []]; discriminate. }
  destruct E as (d & -> & Hd). destruct Hin as [[= <- _] | Hin]; [reflexivity|].
  exfalso. exact (Hd _ _ Hin).
Qed.

(** *** The loop *)

Lemma problemLoop_actions dl sched i ps v :
  Forall (loop_action dl) (fst (problemLoop dl sched i ps v)).
Proof.
  revert i v. induction ps as [|p ps IH]; intros i v; simpl; [constructor|].
  destruct (iteration dl (sched i) i p v) as [out [v'|]] eqn:E.
  - specialize (IH (S i) v').
    destruct (problemLoop dl sched (S i) ps v') as [out' c]. simpl in *.
    apply Forall_app. split; [|exact IH].
    eapply iteration_loop_actions, E.
  - simpl. eapply iteration_loop_actions, E.
Qed.

Lemma problemLoop_score dl sched i ps v :
  correct v <= snd (problemLoop dl sched i ps v) <= correct v + length ps.
Proof.
  revert i v. induction ps as [|p ps IH]; intros i v; simpl; [lia|].
  destruct (iteration dl (sched i) i p v) as [out [v'|]] eqn:E.
  - specialize (IH (S i) v').
    destruct (problemLoop dl sched (S i) ps v') as [out' c]. simpl in *.
    apply iteration_next in E as (t & a & failed & rest & _ & _ & _ & _ & ->).
    simpl in IH. destruct (eqs a (answer p)); lia.
  - simpl. lia.
Qed.

(** The loop seen from a state it passes through. *)
Lemma visits_loop dl sched i ps v j ps' v' :
  visits dl sched i ps v j ps' v' ->
  exists earlier,
    problemLoop dl sched i ps v
    = (earlier ++ fst (problemLoop dl sched j ps' v'),
       snd (problemLoop dl sched j ps' v'))
    /\ (forall n q, In (Prompt n q) earlier -> n <= j)
    /\ i <= j.
Proof.
  induction 1 as [i ps v | i p ps v out v1 j ps' v' E _ (earlier & IH & Hp & Hij)].
  - exists []. split; [|split; [intros n q [] | lia]].
    simpl. destruct (problemLoop dl sched i ps v). reflexivity.
  - exists (out ++ earlier). split; [|split; [|lia]].
    + simpl. rewrite E, IH, app_assoc. reflexivity.
    + intros n q Hin. apply in_app_or in Hin as [Hin | Hin].
      * rewrite (iteration_prompts _ _ _ _ _ _ _ _ _ E Hin). lia.
      * apply (Hp _ _ Hin).
Qed.

Lemma visits_correct dl sched i ps v j ps' v' :
  visits dl sched i ps v j ps' v' -> correct v <= correct v'.
Proof.
  induction 1 as [| i p ps v out v1 j ps' v' E _ IH]; [lia|].
  apply iteration_next in E as (t & a & failed & rest & _ & _ & _ & _ & ->).
  simpl in IH. destruct (eqs a (answer p)); lia.
Qed.

Lemma session_unfold problems timeLimit inp sched :
  session problems timeLimit inp sched
  = let r := problemLoop (fires (limitDuration timeLimit)) sched 0 problems
                         {| correct := 0; now := 0%N; input := inp |} in
    {| output := NewTimer (limitDuration timeLimit)
                   :: fst r ++ [Score (snd r) (length problems)];
       score := snd r;
       total := length problems |}.
Proof. unfold session. destruct (problemLoop _ _ _ _ _). reflexivity. Qed.

(** C1. Whatever the problems, the limit, the input and the choices of
    [select], the session reports [0 <= correct <= total] with [total] the
    number of problems, on the score line as well; this covers the runs
    that end with the timer case and the runs that use up the problems. *)
Theorem C1_score_bounded_total_is_length
    (problems : list problem) (timeLimit : Z) (inp : stdin)
    (sched : nat -> bool) :
  0 <= score (session problems timeLimit inp sched)
  /\ score (session problems timeLimit inp sched)
     <= total (session problems timeLimit inp sched)
  /\ total (session problems timeLimit inp sched) = length problems
  /\ last (output (session problems timeLimit inp sched))
     = Some (Score (score (session problems timeLimit inp sched))
                   (length problems)).
Proof.
  rewrite session_unfold. cbv zeta. simpl score. simpl total. simpl output.
  pose proof (problemLoop_score (fires (limitDuration timeLimit)) sched 0
                problems {| correct := 0; now := 0%N; input := inp |}) as H.
  simpl in H. repeat split; try lia.
  rewrite app_comm_cons. apply last_snoc.
Qed.

(** The deadline in nanoseconds is the limit in seconds, for every limit
    whose count of nanoseconds fits [int64]. *)
Lemma fires_limit_in_range (timeLimit : Z) :
  (0 <= timeLimit <= 9223372036)%Z ->
  fires (limitDuration timeLimit) = Z.to_N (timeLimit * 1000000000).
Proof.
  intros H. unfold fires, limitDuration, wrap64, Second. f_equal.
  rewrite Z.mod_small; lia.
Qed.

(** C2, as amended. The timer is made once, as the first thing the session
    does and so before any prompt; nothing after it makes or resets a
    timer; and every answer that is taken, whatever its question, came no
    later than the one deadline of the session, counted from the start of
    the session. For every limit from 0 to 9223372036 seconds, the largest
    whose count of nanoseconds fits [int64], that deadline is the limit. *)
Theorem C2_single_deadline_for_the_session
    (problems : list problem) (timeLimit : Z) (inp : stdin)
    (sched : nat -> bool) :
  exists rest,
    output (session problems timeLimit inp sched)
    = NewTimer (limitDuration timeLimit) :: rest
    /\ (forall d, ~ In (NewTimer d) rest)
    /\ (forall d, ~ In (ResetTimer d) rest)
    /\ (forall t a, In (Answered t a) rest ->
                    (t <= fires (limitDuration timeLimit))%N)
    /\ ((0 <= timeLimit <= 9223372036)%Z ->
        fires (limitDuration timeLimit) = Z.to_N (timeLimit * 1000000000)).
Proof.
  rewrite session_unfold. cbv zeta. simpl output.
  pose proof (problemLoop_actions (fires (limitDuration timeLimit)) sched 0
                problems {| correct := 0; now := 0%N; input := inp |}) as H.
  eexists. split; [reflexivity|].
  rewrite Forall_forall in H.
  repeat split.
  - intros d Hin. apply in_app_or in Hin as [Hin | [Hin | []]]; [|discriminate].
    apply list_elem_of_In in Hin. exact (H _ Hin).
  - intros d Hin. apply in_app_or in Hin as [Hin | [Hin | []]]; [|discriminate].
    apply list_elem_of_In in Hin. exact (H _ Hin).
  - intros t a Hin. apply in_app_or in Hin as [Hin | [Hin | []]]; [|discriminate].
    apply list_elem_of_In in Hin. exact (H _ Hin).
- apply fires_limit_in_range.
Qed.

Lemma iteration_deadline_first dl tf i p v :
  deadline_first dl v ->
  iteration dl tf i p v = ([Prompt (S i) (question p); TimerFired], None).
Proof.
  unfold deadline_first, iteration, select, lostDiagnostic.
  destruct (Scanf_s_nl _ _) as [t a failed rest|]; [|reflexivity].
  intros Hsc.
  destruct (N.ltb_spec t dl) as [H1 | _]; [lia|].
  destruct (N.ltb_spec dl t) as [_ | H2]; [|lia].
  destruct (N.eqb_spec t dl) as [H3 | _]; [lia|].
  reflexivity.
Qed.


Lemma fires_expired (d : Z) : (d <= 0)%Z -> fires d = 0%N.
Proof. unfold fires. destruct d; simpl; [reflexivity | lia | reflexivity]. Qed.

(** C6, as amended. With a limit of 0, or any limit whose duration is not
    positive, and a first answer that is not there yet when the session
    starts (the first scan returns later, or never), a session over at
    least one problem shows the first question and no other, takes no
    answer, and reports 0 correct out of the number of problems. *)
Theorem C6_expired_limit_first_question_only
    (p : problem) (ps : list problem) (timeLimit : Z) (inp : stdin)
    (sched : nat -> bool) :
  (limitDuration timeLimit <= 0)%Z ->
  deadline_first 0 (start inp) ->
  session (p :: ps) timeLimit inp sched
  = {| output := [NewTimer (limitDuration timeLimit); Prompt 1 (question p);
                  TimerFired; Score 0 (S (length ps))];
       score := 0;
       total := S (length ps) |}.
Proof.
  intros Hd Hf. rewrite session_unfold. cbv zeta. simpl problemLoop.
  rewrite (fires_expired _ Hd).
  rewrite iteration_deadline_first; [reflexivity | exact Hf].
Qed.

(** C7. [correct] is 0 on entering the loop; from any state the session
    passes through to any later one, and on to the score that is reported,
    it does not go down; and a turn either takes no answer and leaves it
    as it is, or takes one answer and adds exactly one when that answer is
    the expected answer of the problem of the turn, rune for rune, and
    nothing otherwise. *)
Theorem C7_correct_counts_exact_matches
    (problems : list problem) (timeLimit : Z) (inp : stdin)
    (sched : nat -> bool) (j : nat) (ps : list problem) (v : vars) :
  visits (fires (limitDuration timeLimit)) sched 0 problems (start inp) j ps v ->
  correct (start inp) = 0
  /\ correct v <= score (session problems timeLimit inp sched)
  /\ (forall k ps' v',
         visits (fires (limitDuration timeLimit)) sched j ps v k ps' v' ->
         correct v <= correct v')
  /\ (forall p ps' out r,
         ps = p :: ps' ->
         iteration (fires (limitDuration timeLimit)) (sched j) j p v = (out, r) ->
         match r with
         | Some v1 =>
             exists t a,
               last out = Some (Answered t a)
               /\ ((a = answer p /\ correct v1 = S (correct v))
                   \/ (a <> answer p /\ correct v1 = correct v))
         | None => forall t a, ~ In (Answered t a) out
         end).
Proof.
  intros Hv. split; [reflexivity|]. split; [|split].
  - rewrite session_unfold. cbv zeta. simpl score.
    destruct (visits_loop _ _ _ _ _ _ _ _ Hv) as (earlier & E & _).
    unfold start in E. rewrite E. simpl. apply problemLoop_score.
  - intros k ps' v'. apply visits_correct.
  - intros p ps' out [v1|] _ E.
    + apply iteration_next in E as (t & a & failed & rest & _ & _ & _ & -> & ->).
      exists t, a. split.
      * rewrite app_comm_cons. apply last_snoc.
      * simpl. destruct (eqs a (answer p)) eqn:Ea.
        -- left. split; [apply eqs_eq, Ea | reflexivity].
        -- right. split; [|reflexivity]. intros Heq.
           apply eqs_eq in Heq. congruence.
    + apply iteration_break in E as (d & -> & Hd). intros t a Hin.
      destruct Hin as [Hin | Hin]; [discriminate|].
      apply in_app_or in Hin as [Hin | [Hin | []]]; [|discriminate].
      destruct Hd as [-> | ->]; simpl in Hin; [exact Hin|].
      destruct Hin as [Hin | []]; discriminate.
Qed.

(** The comparison tells upper case from lower case. *)
Example eqs_case_sensitive :
  eqs (of_string "Paris") (of_string "paris") = false.
Proof. reflexivity. Qed.

(** *** The choices of select *)

Lemma quiet_at_rest dl now inp ready a failed rest :
  Scanf_s_nl now inp = Scanned ready a failed rest ->
  quiet_at dl inp -> quiet_at dl rest.
Proof.
  intros E [Hp Hc].
  destruct (Scanf_origin _ _ _ _ _ _ E) as (_ & [used Hu] & Hcl & _).
  split; [|congruence].
  intros Hin. apply Hp. rewrite Hu, map_app. apply in_or_app. auto.
Qed.

(** A scan that returns has read a rune, or met the end of the input, no
    later than it returns. *)
Lemma Scanf_consumes (now : time) (inp : stdin) ready a failed rest :
  Scanf_s_nl now inp = Scanned ready a failed rest ->
  exists s, (In s (map fst (pending inp)) \/ closes inp = Some s)
            /\ (s <= ready)%N.
Proof.
  unfold Scanf_s_nl. destruct inp as [l cl]. simpl pending. simpl closes.
  destruct (skipBlanks now l) as [t1 l1] eqn:E1.
  destruct (skipBlanks_origin _ _ _ _ E1) as (_ & [u1 U1] & _).
  destruct l1 as [|[ta r] l1'].
  - destruct cl as [te|]; [|discriminate].
    intros [= <- _ _ _]. exists te. split; [auto | lia].
  - destruct (r =? newline)%N.
    + intros [= <- _ _ _]. exists ta. split; [|lia].
      left. rewrite U1, map_app. apply in_or_app. right. left. reflexivity.
    + destruct (token t1 ((ta, r) :: l1')) as [[tok t2] l2] eqn:E2.
      destruct (token_origin _ _ _ _ _ E2) as (_ & [u2 U2] & _).
      destruct (skipBlanks t2 l2) as [t3 l3] eqn:E3.
      destruct (skipBlanks_origin _ _ _ _ E3) as (_ & [u3 U3] & _).
      destruct l3 as [|[tb c] l3'].
      * destruct cl as [te|]; [|discriminate].
        intros [= <- _ _ _]. exists te. split; [auto | lia].
      * intros [= <- _ _ _]. exists tb. split; [|lia].
        left. rewrite U1, U2, U3, !map_app.
        apply in_or_app. right. apply in_or_app. right.
        apply in_or_app. right. left. reflexivity.
Qed.

(** With nothing reaching standard input at the instant of the deadline,
    no scan started before the deadline, or at instant 0, returns at that
    instant. *)
Lemma quiet_no_tie (dl now : time) inp ready a failed rest :
  quiet_at dl inp ->
  (now < dl)%N \/ dl = 0%N ->
  Scanf_s_nl now inp = Scanned ready a failed rest ->
  ready <> dl.
Proof.
  intros [Hp Hc] Hnow E ->.
  destruct Hnow as [Hlt | ->].
  - destruct (Scanf_origin _ _ _ _ _ _ E) as ([Ho | [Ho | Ho]] & _);
      [lia | auto..].
  - destruct (Scanf_consumes _ _ _ _ _ _ E) as (s & Hs & Hle).
    assert (s = 0%N) as -> by lia. destruct Hs; auto.
Qed.

Lemma select_choice_irrelevant (dl now : time) inp b1 b2 :
  quiet_at dl inp ->
  (now < dl)%N \/ dl = 0%N ->
  select dl (Scanf_s_nl now inp) b1 = select dl (Scanf_s_nl now inp) b2.
Proof.
  intros Hq Hnow. unfold select.
  destruct (Scanf_s_nl now inp) as [t a failed rest|] eqn:E; [|reflexivity].
  destruct (N.ltb_spec t dl) as [H1 | H1]; [reflexivity|].
  destruct (N.ltb_spec dl t) as [H2 | H2]; [reflexivity|].
  exfalso. apply (quiet_no_tie _ _ _ _ _ _ _ Hq Hnow E). lia.
Qed.

Lemma problemLoop_choice_irrelevant dl s1 s2 i ps v :
  quiet_at dl (input v) ->
  (now v < dl)%N \/ dl = 0%N ->
  problemLoop dl s1 i ps v = problemLoop dl s2 i ps v.
Proof.
  revert i v. induction ps as [|p ps IH]; intros i v Hq Hnow; simpl;
    [reflexivity|].
  assert (Ei : iteration dl (s1 i) i p v = iteration dl (s2 i) i p v).
  { unfold iteration.
    rewrite (select_choice_irrelevant dl (now v) (input v) (s1 i) (s2 i) Hq Hnow).
    reflexivity. }
  rewrite Ei. destruct (iteration dl (s2 i) i p v) as [out [v'|]] eqn:E;
    [|reflexivity].
  apply iteration_next in E as (t & a & failed & rest & Es & _ & Ht & _ & ->).
  pose proof (quiet_no_tie _ _ _ _ _ _ _ Hq Hnow Es) as Hne.
  rewrite (IH (S i)); [reflexivity | |].
  - simpl. eapply quiet_at_rest; eassumption.
  - simpl. left. lia.
Qed.

(** C8, as amended. Two runs over the same problems, with the same limit
    and the same timed input, report the same, whatever [select] chooses,
    when nothing reaches standard input at the very instant the timer
    fires. *)
Theorem C8_same_report_when_no_tie
    (problems : list problem) (timeLimit : Z) (inp : stdin)
    (sched1 sched2 : nat -> bool) :
  quiet_at (fires (limitDuration timeLimit)) inp ->
  session problems timeLimit inp sched1 = session problems timeLimit inp sched2.
Proof.
  intros Hq. rewrite !session_unfold.
  rewrite (problemLoop_choice_irrelevant _ sched1 sched2); [reflexivity | |].
  - exact Hq.
  - simpl. destruct (N.eq_dec (fires (limitDuration timeLimit)) 0%N); [auto|].
    left. lia.
Qed.

(** *** Failed reads *)

(** C4, as amended. A read that fails is not a read that never returns:
    when the failed scan returns before the deadline, the diagnostic is
    printed, what the scan left in [answer] is delivered and compared like
    any answer, so that the question counts as correct exactly when that
    string is the expected answer, and the loop goes on with the next
    problem. *)
Theorem C4_failed_read_is_delivered_and_compared
    (dl : time) (sched : nat -> bool) (i : nat) (p : problem)
    (ps : list problem) (v : vars) (ready : time) (a : gostring)
    (rest : stdin) :
  Scanf_s_nl (now v) (input v) = Scanned ready a true rest ->
  (ready < dl)%N ->
  problemLoop dl sched i (p :: ps) v
  = ([Prompt (S i) (question p); ScanFailed; Answered ready a]
       ++ fst (problemLoop dl sched (S i) ps (answered v p ready a rest)),
     snd (problemLoop dl sched (S i) ps (answered v p ready a rest)))
  /\ (correct (answered v p ready a rest) = S (correct v) <-> a = answer p)
  /\ (correct (answered v p ready a rest) = correct v <-> a <> answer p).
Proof.
  intros E Hr.
  destruct (Scanf_origin _ _ _ _ _ _ E) as (_ & _ & _ & Hnow).
  split.
  - simpl. unfold iteration, select. rewrite E.
    destruct (N.ltb_spec ready dl) as [_ | Hge]; [|lia].
    fold (answered v p ready a rest).
    destruct (problemLoop dl sched (S i) ps (answered v p ready a rest)).
    reflexivity.
  - unfold answered. simpl. destruct (eqs a (answer p)) eqn:Ea.
    + apply eqs_eq in Ea. split; split; intros H; auto; try lia; congruence.
    + assert (a <> answer p).
      { intros Heq. apply eqs_eq in Heq. congruence. }
      split; split; intros H'; auto; try lia; congruence.
Qed.

(** *** Answers with white space around them *)

Lemma head_In {A} (l : list A) (x : A) : head l = Some x -> In x l.
Proof. destruct l; simpl; [discriminate|]. intros [= ->]. auto. Qed.

Lemma last_In {A} (l : list A) (x : A) : last l = Some x -> In x l.
Proof.
  rewrite <- head_rev. intros H. apply in_rev, head_In, H.
Qed.

Lemma solid_runes tk r : solid tk -> In r (map snd tk) -> isSpace r = false.
Proof.
  unfold solid. rewrite Forall_forall. intros H Hin.
  apply in_map_iff in Hin as (x & <- & Hx). apply H, list_elem_of_In, Hx.
Qed.

Lemma blanks_runes bl : blanks bl -> Forall (fun r => isSpace r = true) (map snd bl).
Proof.
  unfold blanks. rewrite !Forall_forall. intros H r Hin.
  apply list_elem_of_In, in_map_iff in Hin as (x & <- & Hx).
  apply isBlank_isSpace, H, list_elem_of_In, Hx.
Qed.

(** C5. An answer typed as a single word with blanks around it is taken
    trimmed the way the expected answer was: what is compared with the
    expected answer is [TrimSpace] of the line, which is the word. So the
    line counts as correct exactly when its trimmed form is the expected
    answer, itself [TrimSpace] of a field of the table; a line such as
    [4 ] for the expected answer [4] counts. *)
Theorem C5_padded_single_token_counts
    (dl : time) (tf : bool) (i : nat) (p : problem) (v : vars)
    (bl1 tk bl2 more : list (time * rune)) (tn : time) (cl : option time) :
  input v = Stdin (bl1 ++ tk ++ bl2 ++ (tn, newline) :: more) cl ->
  blanks bl1 -> solid tk -> tk <> [] -> blanks bl2 ->
  (latest (now v) (bl1 ++ tk ++ bl2 ++ [(tn, newline)]) < dl)%N ->
  TrimSpace (map snd (bl1 ++ tk ++ bl2)) = map snd tk
  /\ iteration dl tf i p v
     = ([Prompt (S i) (question p);
         Answered (latest (now v) (bl1 ++ tk ++ bl2 ++ [(tn, newline)]))
                  (TrimSpace (map snd (bl1 ++ tk ++ bl2)))],
        Some (answered v p
                (latest (now v) (bl1 ++ tk ++ bl2 ++ [(tn, newline)]))
                (TrimSpace (map snd (bl1 ++ tk ++ bl2)))
                (Stdin more cl)))
  /\ (forall field,
         answer p = TrimSpace field ->
         (correct (answered v p
                     (latest (now v) (bl1 ++ tk ++ bl2 ++ [(tn, newline)]))
                     (TrimSpace (map snd (bl1 ++ tk ++ bl2)))
                     (Stdin more cl))
          = S (correct v)
          <-> TrimSpace (map snd (bl1 ++ tk ++ bl2)) = TrimSpace field)).
Proof.
  intros Ei B1 Sw Hne B2 Hlt.
  assert (Et : TrimSpace (map snd (bl1 ++ tk ++ bl2)) = map snd tk).
  { rewrite !map_app. apply TrimSpace_padded.
    - apply blanks_runes, B1.
    - apply blanks_runes, B2.
    - intros r Hr. eapply solid_runes, head_In, Hr. exact Sw.
    - intros r Hr. eapply solid_runes, last_In, Hr. exact Sw. }
  split; [exact Et|]. split.
  - unfold iteration, select. rewrite Ei, Scanf_one_token by assumption.
    destruct (N.ltb_spec (latest (now v) (bl1 ++ tk ++ bl2 ++ [(tn, newline)])) dl)
      as [_ | Hc]; [|lia].
    rewrite Et. reflexivity.
  - intros field Ef. unfold answered. simpl. rewrite <- Ef.
    destruct (eqs _ (answer p)) eqn:Ea.
    + apply eqs_eq in Ea. tauto.
    + split; [lia|]. intros Heq. apply eqs_eq in Heq. congruence.
Qed.

End SessionFacts.

(** ** Scenarios *)

Module Scenarios.
Import GoString Fmt Quiz1 Notions SessionFacts.

(** Both answers in time, limit 10: 2 out of 2. *)
Example both_answers_in_time :
  RunQuiz1 (Rows [[of_string "2+2"; of_string "4"]; [of_string "3+3"; of_string "6"]])
           10 (Stdin (typed one_second "4" ++ typed (2 * one_second) "6") None)
           (fun _ => true)
  = Finished
      {| output := [NewTimer 10000000000;
                    Prompt 1 (of_string "2+2"); Answered 1000000000 (of_string "4");
                    Prompt 2 (of_string "3+3"); Answered 2000000000 (of_string "6");
                    Score 2 2];
         score := 2; total := 2 |}.
Proof. vm_compute. reflexivity. Qed.

(** Limit 0, the first answer after one second: 0 out of 2, the second
    question is not shown. *)
Example first_answer_too_late :
  session two_problems 0
          (Stdin (typed one_second "4" ++ typed (2 * one_second) "6") None)
          (fun _ => false)
  = {| output := [NewTimer 0; Prompt 1 (of_string "2+2"); TimerFired; Score 0 2];
       score := 0; total := 2 |}.
Proof. vm_compute. reflexivity. Qed.

(** Limit one second, answers after 0.6 s and 1.2 s: the second answer took
    0.6 s from its prompt, less than the limit, and is not taken, because
    the deadline counts from the start of the session. *)
Example deadline_is_not_per_question :
  session two_problems 1
          (Stdin (typed 600000000 "4" ++ typed 1200000000 "6") None)
          (fun _ => false)
  = {| output := [NewTimer 1000000000;
                  Prompt 1 (of_string "2+2"); Answered 600000000 (of_string "4");
                  Prompt 2 (of_string "3+3"); TimerFired;
                  Score 1 2];
       score := 1; total := 2 |}.
Proof. vm_compute. reflexivity. Qed.

(** A table with one column passes the reader and panics in [parseLines]. *)
Example one_column_table_panics :
  RunQuiz1 (Rows [[of_string "2+2"]]) 10 (Stdin [] None) (fun _ => true)
  = Panicked 1 1.
Proof. reflexivity. Qed.

(** The multiplication by [time.Second] leaves [int64] for a limit of
    9223372037 seconds: the duration is negative and the timer fires at
    once. *)
Example limit_beyond_int64 :
  limitDuration 9223372037 = (-9223372036709551616)%Z
  /\ fires (limitDuration 9223372037) = 0%N.
Proof. split; reflexivity. Qed.

(** C2, counterexample. A limit of 9223372037 seconds: the product with
    [time.Second] leaves [int64], the duration is negative and the timer
    fires at once, so an answer typed after one second is not taken. The
    time allowed is nothing, not the limit. *)
Lemma C2_counterexample_limit_beyond_int64 :
  limitDuration 9223372037 = (-9223372036709551616)%Z
  /\ fires (limitDuration 9223372037) = 0%N
  /\ session two_problems 9223372037
       (Stdin (typed one_second "4" ++ typed (2 * one_second) "6") None)
       (fun _ => false)
     = {| output := [NewTimer (-9223372036709551616);
                     Prompt 1 (of_string "2+2"); TimerFired;
                     Score 0 2];
          score := 0; total := 2 |}.
Proof. repeat split; vm_compute; reflexivity. Qed.

Lemma C2_single_deadline_for_the_session_witness :
  (0 <= 10 <= 9223372036)%Z
  /\ fires (limitDuration 10) = Z.to_N (10 * 1000000000).
Proof.
  assert (H : (0 <= 10 <= 9223372036)%Z) by lia.
  split; [exact H|].
  destruct (C2_single_deadline_for_the_session
              two_problems 10 (Stdin (typed one_second "4") None)
              (fun _ => true)) as (rest & _ & _ & _ & _ & Hl).
  exact (Hl H).
Defined.


(** C4, counterexample. The line [4 x] reaches standard input after 5 ns
    and the stream ends after 7 ns; the limit is 10 s. The read of the
    first question fails (the line goes on after the token), yet the
    reader delivers [4], the question is counted as correct, the read of
    the second question fails too and delivers the empty string, and the
    session ends by running out of problems, with no timer case. *)
Lemma C4_counterexample_failed_read_scored :
  Scanf_s_nl 0 (Stdin (typed 5 "4 x") (Some 7%N))
  = Scanned 5 (of_string "4") true (Stdin [(5%N, newline)] (Some 7%N))
  /\ session two_problems 10 (Stdin (typed 5 "4 x") (Some 7%N)) (fun _ => true)
     = {| output := [NewTimer 10000000000;
                     Prompt 1 (of_string "2+2"); ScanFailed;
                     Answered 5 (of_string "4");
                     Prompt 2 (of_string "3+3"); ScanFailed;
                     Answered 5 [];
                     Score 1 2];
          score := 1; total := 2 |}.
Proof. split; vm_compute; reflexivity. Qed.

Lemma C4_failed_read_is_delivered_and_compared_witness :
  Scanf_s_nl 0 (Stdin (typed 5 "4 x") (Some 7%N))
  = Scanned 5 (of_string "4") true (Stdin [(5%N, newline)] (Some 7%N))
  /\ (5 < 10 * one_second)%N
  /\ (correct (answered (start (Stdin (typed 5 "4 x") (Some 7%N)))
                        {| question := of_string "2+2"; answer := of_string "4" |}
                        5 (of_string "4") (Stdin [(5%N, newline)] (Some 7%N)))
      = 1
      <-> of_string "4" = of_string "4").
Proof.
  assert (E : Scanf_s_nl (now (start (Stdin (typed 5 "4 x") (Some 7%N))))
                         (input (start (Stdin (typed 5 "4 x") (Some 7%N))))
              = Scanned 5 (of_string "4") true (Stdin [(5%N, newline)] (Some 7%N))).
  { vm_compute. reflexivity. }
  assert (L : (5 < 10 * one_second)%N).
  { vm_compute. reflexivity. }
  split; [exact E|]. split; [exact L|].
  exact (proj1 (proj2 (C4_failed_read_is_delivered_and_compared
                         (10 * one_second) (fun _ => true) 0
                         {| question := of_string "2+2"; answer := of_string "4" |}
                         [] (start (Stdin (typed 5 "4 x") (Some 7%N)))
                         5 (of_string "4") (Stdin [(5%N, newline)] (Some 7%N))
                         E L))).
Defined.

(** Outside the single words: the expected answer is the field [ a b ]
    trimmed, [a b], and the line [a b] is typed. The scan delivers [a] and
    reports a failure, and the question is not counted. *)
Example inner_space_line_is_cut :
  parseLines [[of_string "q"; of_string " a b "]]
  = Ok [ {| question := of_string "q"; answer := of_string "a b" |} ]
  /\ session [ {| question := of_string "q"; answer := of_string "a b" |} ] 10
             (Stdin (typed 5 "a b") None) (fun _ => true)
     = {| output := [NewTimer 10000000000;
                     Prompt 1 (of_string "q"); ScanFailed;
                     Answered 5 (of_string "a");
                     Score 0 1];
          score := 0; total := 1 |}.
Proof. repeat split; vm_compute; reflexivity. Qed.

Lemma C5_padded_single_token_counts_witness :
  (latest 0 (typed 5 "4 ") < 10 * one_second)%N
  /\ TrimSpace (of_string "4 ") = of_string "4"
  /\ iteration (10 * one_second) true 0
       {| question := of_string "2+2"; answer := of_string "4" |}
       (start (Stdin (typed 5 "4 ") None))
     = ([Prompt 1 (of_string "2+2"); Answered 5 (of_string "4")],
        Some {| correct := 1; now := 5%N; input := Stdin [] None |}).
Proof.
  assert (L : (latest 0 (typed 5 "4 ") < 10 * one_second)%N).
  { vm_compute. reflexivity. }
  split; [exact L|].
  refine (let H := C5_padded_single_token_counts
            (10 * one_second) true 0
            {| question := of_string "2+2"; answer := of_string "4" |}
            (start (Stdin (typed 5 "4 ") None))
            [] [(5%N, 52%N)] [(5%N, 32%N)] [] 5 None
            eq_refl _ _ _ _ L in
          conj (proj1 H) (proj1 (proj2 H))).
  - constructor.
  - repeat constructor.
  - discriminate.
  - repeat constructor.
Defined.

(** C6, counterexample. The limit is 0 and the lines [4] and [6] are
    waiting on standard input when the session starts: at the first
    [select] the timer has fired and the reader has its answer, both cases
    can proceed. When Go takes the answer there and the timer at the
    second question, the second question has been shown and the score is
    1. *)
Lemma C6_counterexample_answer_waiting :
  session two_problems 0 (Stdin (typed 0 "4" ++ typed 0 "6") None)
          (fun i => Nat.eqb i 1)
  = {| output := [NewTimer 0;
                  Prompt 1 (of_string "2+2"); Answered 0 (of_string "4");
                  Prompt 2 (of_string "3+3"); TimerFired;
                  Score 1 2];
       score := 1; total := 2 |}.
Proof. vm_compute. reflexivity. Qed.

(** Limit 0 with standard input at its end: the reader has failed and
    printed its diagnostic when the timer case is taken. *)
Example expired_limit_at_end_of_input :
  session two_problems 0 (Stdin [] (Some 0%N)) (fun _ => true)
  = {| output := [NewTimer 0;
                  Prompt 1 (of_string "2+2"); ScanFailed; TimerFired;
                  Score 0 2];
       score := 0; total := 2 |}.
Proof. vm_compute. reflexivity. Qed.

Lemma C6_expired_limit_first_question_only_witness :
  (limitDuration 0 <= 0)%Z
  /\ deadline_first 0 (start (Stdin (typed one_second "4" ++ typed one_second "6") None))
  /\ session two_problems 0
             (Stdin (typed one_second "4" ++ typed one_second "6") None)
             (fun _ => false)
     = {| output := [NewTimer (limitDuration 0); Prompt 1 (of_string "2+2");
                     TimerFired; Score 0 2];
          score := 0; total := 2 |}.
Proof.
  assert (H : (limitDuration 0 <= 0)%Z) by (vm_compute; discriminate).
  assert (F : deadline_first 0
                (start (Stdin (typed one_second "4" ++ typed one_second "6") None))).
  { vm_compute. reflexivity. }
  split; [exact H|]. split; [exact F|].
  exact (C6_expired_limit_first_question_only
           {| question := of_string "2+2"; answer := of_string "4" |}
           [ {| question := of_string "3+3"; answer := of_string "6" |} ]
           0 _ _ H F).
Defined.

Lemma C7_correct_counts_exact_matches_witness :
  visits (fires (limitDuration 10)) (fun _ => true) 0 two_problems
         (start (Stdin (typed 5 "4" ++ typed 9 "six") None))
         1 [ {| question := of_string "3+3"; answer := of_string "6" |} ]
         {| correct := 1; now := 5%N; input := Stdin (typed 9 "six") None |}
  /\ 1 <= score (session two_problems 10
                   (Stdin (typed 5 "4" ++ typed 9 "six") None) (fun _ => true)).
Proof.
  assert (Hv : visits (fires (limitDuration 10)) (fun _ => true) 0 two_problems
         (start (Stdin (typed 5 "4" ++ typed 9 "six") None))
         1 [ {| question := of_string "3+3"; answer := of_string "6" |} ]
         {| correct := 1; now := 5%N; input := Stdin (typed 9 "six") None |}).
  { eapply visits_turn; [vm_compute; reflexivity | apply visits_here]. }
  split; [exact Hv|].
  exact (proj1 (proj2 (C7_correct_counts_exact_matches
                         two_problems 10 _ _ 1 _ _ Hv))).
Defined.

(** C8, counterexample. The limit is one second and the line [4] reaches
    standard input at the very instant the timer fires: both cases of the
    [select] can proceed, and the score depends on the one Go picks. *)
Lemma C8_counterexample_tie_at_deadline :
  score (session two_problems 1
           (Stdin (typed one_second "4" ++ typed (2 * one_second) "6") None)
           (fun _ => false)) = 1
  /\ score (session two_problems 1
              (Stdin (typed one_second "4" ++ typed (2 * one_second) "6") None)
              (fun _ => true)) = 0
  /\ session two_problems 1
       (Stdin (typed one_second "4" ++ typed (2 * one_second) "6") None)
       (fun _ => false)
     <> session two_problems 1
          (Stdin (typed one_second "4" ++ typed (2 * one_second) "6") None)
          (fun _ => true).
Proof.
  split; [vm_compute; reflexivity|]. split; [vm_compute; reflexivity|].
  intros H. apply (f_equal score) in H. vm_compute in H. discriminate H.
Qed.

Lemma C8_same_report_when_no_tie_witness :
  quiet_at (fires (limitDuration 10))
           (Stdin (typed one_second "4" ++ typed (2 * one_second) "6") None)
  /\ session two_problems 10
       (Stdin (typed one_second "4" ++ typed (2 * one_second) "6") None)
       (fun _ => true)
     = session two_problems 10
         (Stdin (typed one_second "4" ++ typed (2 * one_second) "6") None)
         (fun _ => false).
Proof.
  assert (Hq : quiet_at (fires (limitDuration 10))
           (Stdin (typed one_second "4" ++ typed (2 * one_second) "6") None)).
  { split; [|discriminate]. vm_compute. intuition discriminate. }
  split; [exact Hq|].
  exact (C8_same_report_when_no_tie two_problems 10 _ _ _ Hq).
Defined.

End Scenarios.

(** * Further properties of the session *)

Module SessionShape.
Import GoString Fmt Quiz1 Notions Trace GoStringFacts ScanFacts SessionFacts.

Lemma prompts_of_app out out' :
  prompts_of (out ++ out') = prompts_of out ++ prompts_of out'.
Proof. apply flat_map_app. Qed.

Lemma answers_of_app out out' :
  answers_of (out ++ out') = answers_of out ++ answers_of out'.
Proof. apply flat_map_app. Qed.

Lemma instants_of_app out out' :
  instants_of (out ++ out') = instants_of out ++ instants_of out'.
Proof. apply flat_map_app. Qed.

(** What the two kinds of turn leave in a trace. *)
Lemma answered_turn_trace i p failed t a :
  let out := Prompt (S i) (question p) :: diagnostic failed ++ [Answered t a] in
  prompts_of out = [(S i, question p)]
  /\ answers_of out = [a]
  /\ instants_of out = [t]
  /\ ~ In TimerFired out.
Proof.
  destruct failed; simpl; repeat split; try reflexivity;
    intros H; repeat (destruct H as [H | H]; [discriminate|]); exact H.
Qed.

Lemma timer_turn_trace i p d :
  d = [] \/ d = [ScanFailed] ->
  let out := Prompt (S i) (question p) :: d ++ [TimerFired] in
  prompts_of out = [(S i, question p)]
  /\ answers_of out = []
  /\ instants_of out = []
  /\ In TimerFired out.
Proof.
  intros [-> | ->]; simpl; repeat split; auto.
Qed.

(** The shape of what the loop leaves: the prompts of the first [k]
    problems, an answer for each of them but, after the timer case, the
    last, and [correct] raised by the number of answers that match. *)
Lemma loop_shape dl sched i ps v :
  exists k,
    k <= length ps
    /\ prompts_of (fst (problemLoop dl sched i ps v)) = numbered i (take k ps)
    /\ snd (problemLoop dl sched i ps v)
       = correct v + matches (answers_of (fst (problemLoop dl sched i ps v))) ps
    /\ ((~ In TimerFired (fst (problemLoop dl sched i ps v))
         /\ k = length ps
         /\ length (answers_of (fst (problemLoop dl sched i ps v))) = length ps)
        \/ (In TimerFired (fst (problemLoop dl sched i ps v))
            /\ k = S (length (answers_of (fst (problemLoop dl sched i ps v)))))).
Proof.
  revert i v. induction ps as [|p ps IH]; intros i v.
  - exists 0. simpl. split; [lia|]. split; [reflexivity|]. split; [lia|].
    left. auto.
  - simpl. destruct (iteration dl (sched i) i p v) as [out [v'|]] eqn:E.
    + destruct (IH (S i) v') as (k & Hk & Hp & Hc & Ht).
      destruct (problemLoop dl sched (S i) ps v') as [out' c]. simpl in *.
      apply iteration_next in E as (t & a & failed & rest & _ & _ & _ & -> & ->).
      destruct (answered_turn_trace i p failed t a) as (Ep & Ea & _ & Hn).
      cbv zeta in *. exists (S k).
      rewrite prompts_of_app, answers_of_app, Ep, Ea. simpl.
      split; [lia|]. split; [congruence|]. split.
      * rewrite Hc. simpl. destruct (eqs a (answer p)); lia.
      * destruct Ht as [(Hno & -> & Hl) | (Hin & ->)].
        -- left. split; [|split; [reflexivity | congruence]].
           intros [H | H]; [discriminate|].
           rewrite <- app_assoc in H. apply in_app_or in H as [H | H].
           ++ apply Hn. right. apply in_or_app. auto.
           ++ apply in_app_or in H as [[H | []] | H]; [discriminate | auto].
        -- right. split; [|reflexivity].
           right. rewrite <- app_assoc. apply in_or_app. right.
           apply in_or_app. auto.
    + apply iteration_break in E as (d & -> & Hd).
      destruct (timer_turn_trace i p d Hd) as (Ep & Ea & _ & Hin).
      cbv zeta in *. exists 1. simpl fst. simpl snd. rewrite Ep, Ea. simpl.
      split; [lia|]. split; [destruct ps; reflexivity|]. split; [lia|].
      right. split; [exact Hin | reflexivity].
Qed.

Lemma session_prompts problems timeLimit inp sched :
  prompts_of (output (session problems timeLimit inp sched))
  = prompts_of (fst (problemLoop (fires (limitDuration timeLimit)) sched 0
                       problems (start inp))).
Proof.
  rewrite session_unfold. cbv zeta. simpl output.
  change (prompts_of (NewTimer ?d :: ?l)) with (prompts_of l).
  rewrite prompts_of_app. simpl. apply app_nil_r.
Qed.

Lemma session_answers problems timeLimit inp sched :
  answers_of (output (session problems timeLimit inp sched))
  = answers_of (fst (problemLoop (fires (limitDuration timeLimit)) sched 0
                       problems (start inp))).
Proof.
  rewrite session_unfold. cbv zeta. simpl output.
  change (answers_of (NewTimer ?d :: ?l)) with (answers_of l).
  rewrite answers_of_app. simpl. apply app_nil_r.
Qed.

Lemma session_timer_fired problems timeLimit inp sched :
  In TimerFired (output (session problems timeLimit inp sched))
  <-> In TimerFired (fst (problemLoop (fires (limitDuration timeLimit)) sched 0
                            problems (start inp))).
Proof.
  rewrite session_unfold. cbv zeta. simpl output. split.
  - intros [H | H]; [discriminate|].
    apply in_app_or in H as [H | [H | []]]; [exact H | discriminate].
  - intros H. right. apply in_or_app. auto.
Qed.

(** X1. The questions are shown in the order of the table, numbered from
    1 without a gap: the prompts of a session are those of the first [k]
    problems, with [k] at least 1 when there is a problem, and [k] falls
    short of the number of problems only when the timer case was taken. *)
Theorem X1_prompts_follow_the_table
    (problems : list problem) (timeLimit : Z) (inp : stdin)
    (sched : nat -> bool) :
  exists k,
    k <= length problems
    /\ (problems <> [] -> 0 < k)
    /\ prompts_of (output (session problems timeLimit inp sched))
       = numbered 0 (take k problems)
    /\ (k = length problems
        \/ In TimerFired (output (session problems timeLimit inp sched))).
Proof.
  destruct (loop_shape (fires (limitDuration timeLimit)) sched 0 problems
                       (start inp)) as (k & Hk & Hp & _ & Ht).
  exists k. rewrite session_prompts, session_timer_fired.
  split; [exact Hk|]. split; [|split; [exact Hp|]].
  - intros Hne. destruct Ht as [(_ & -> & _) | (_ & ->)]; [|lia].
    destruct problems; [congruence | simpl; lia].
  - destruct Ht as [(_ & -> & _) | (Hin & _)]; auto.
Qed.

(** X2. The score is the number of answers taken that equal the expected
    answer of the problem at the same place in the table; there are as
    many answers taken as problems exactly when the timer case was not
    taken, and fewer otherwise. *)
Theorem X2_score_counts_matching_answers
    (problems : list problem) (timeLimit : Z) (inp : stdin)
    (sched : nat -> bool) :
  score (session problems timeLimit inp sched)
  = matches (answers_of (output (session problems timeLimit inp sched)))
            problems
  /\ length (answers_of (output (session problems timeLimit inp sched)))
     <= length problems
  /\ (length (answers_of (output (session problems timeLimit inp sched)))
      = length problems
      <-> ~ In TimerFired (output (session problems timeLimit inp sched))).
Proof.
  destruct (loop_shape (fires (limitDuration timeLimit)) sched 0 problems
                       (start inp)) as (k & Hk & _ & Hc & Ht).
  rewrite session_answers, session_timer_fired.
  split; [|split].
  - rewrite session_unfold. cbv zeta. simpl score. exact Hc.
  - destruct Ht as [(_ & _ & ->) | (_ & ->)]; lia.
  - destruct Ht as [(Hno & _ & Hl) | (Hin & ->)]; split; intros H; auto.
    + lia.
    + contradiction.
Qed.

End SessionShape.

(** ** What a read can deliver *)

Module SessionReads.
Import GoString Fmt Quiz1 Notions Trace GoStringFacts ScanFacts SessionFacts.
Import SessionShape.

Lemma token_spaceless t l tok t' l' :
  token t l = (tok, t', l') -> spaceless tok = true.
Proof.
  revert t tok t' l'. induction l as [|[ta r] l IH]; intros t tok t' l'; simpl.
  - intros [= <- _ _]. reflexivity.
  - destruct (isSpace r) eqn:Hr.
    + intros [= <- _ _]. reflexivity.
    + destruct (token (N.max t ta) l) as [[tok1 t1] l1] eqn:E.
      intros [= <- _ _]. simpl. rewrite Hr. simpl. eapply IH, E.
Qed.

Lemma token_starts t ta r l :
  isSpace r = false -> exists tok t' l', token t ((ta, r) :: l) = (r :: tok, t', l').
Proof.
  intros Hr. simpl. rewrite Hr.
  destruct (token (N.max t ta) l) as [[tok t'] l']. eauto.
Qed.

(** The scan never delivers white space, and delivers the empty string
    only together with an error. *)
Lemma Scanf_delivers now inp ready a failed rest :
  Scanf_s_nl now inp = Scanned ready a failed rest ->
  spaceless a = true /\ (failed = false -> a <> []).
Proof.
  unfold Scanf_s_nl.
  destruct (skipBlanks now (pending inp)) as [t1 l1] eqn:E1.
  destruct l1 as [|[ta r] l1'].
  - destruct (closes inp); [|discriminate].
    intros [= _ <- <- _]. split; [reflexivity | discriminate].
  - destruct (N.eqb_spec r newline) as [-> | Hnl].
    + intros [= _ <- <- _]. split; [reflexivity | discriminate].
    + assert (Hr : isSpace r = false).
      { assert (Hb : isBlank r = false).
        { clear -E1. revert now E1.
          induction (pending inp) as [|[tb c] l IH]; intros now; simpl.
          - discriminate.
          - destruct (isBlank c) eqn:Hc; [apply IH|].
            intros [= _ <- <- <-]. exact Hc. }
        unfold isBlank in Hb. destruct (isSpace r); [|reflexivity].
        simpl in Hb. apply negb_false_iff, N.eqb_eq in Hb. contradiction. }
      destruct (token_starts t1 ta r l1' Hr) as (tok & t2 & l2 & Et).
      pose proof (token_spaceless _ _ _ _ _ Et) as Hs.
      rewrite Et. destruct (skipBlanks t2 l2) as [t3 [|[tb c] l3']].
      * destruct (closes inp); [|discriminate].
        intros [= _ <- <- _]. split; [exact Hs | discriminate].
      * intros [= _ <- <- _]. split; [exact Hs | discriminate].
Qed.

Lemma spaceless_eqs a b : eqs a b = true -> spaceless a = true -> spaceless b = true.
Proof. intros H. apply eqs_eq in H. congruence. Qed.

Lemma loop_reachable dl sched i ps v :
  snd (problemLoop dl sched i ps v) <= correct v + length (reachable ps).
Proof.
  revert i v. induction ps as [|p ps IH]; intros i v; simpl; [lia|].
  unfold reachable in *. rewrite filter_cons.
  destruct (iteration dl (sched i) i p v) as [out [v'|]] eqn:E.
  - specialize (IH (S i) v').
    destruct (problemLoop dl sched (S i) ps v') as [out' c]. simpl in *.
    apply iteration_next in E as (t & a & failed & rest & Es & _ & _ & _ & ->).
    simpl in IH. destruct (eqs a (answer p)) eqn:Ea.
    + destruct (Scanf_delivers _ _ _ _ _ _ Es) as [Hs _].
      rewrite decide_True by (eapply spaceless_eqs; eassumption).
      simpl. lia.
    + destruct (decide _); simpl; lia.
  - simpl. lia.
Qed.

(** X4. A problem whose expected answer holds white space can never be
    counted, whatever is typed: the score is at most the number of
    problems whose expected answer is free of white space. *)
Theorem X4_score_bounded_by_spaceless_answers
    (problems : list problem) (timeLimit : Z) (inp : stdin)
    (sched : nat -> bool) :
  score (session problems timeLimit inp sched) <= length (reachable problems).
Proof.
  rewrite session_unfold. cbv zeta. simpl score.
  apply (loop_reachable _ sched 0 problems (start inp)).
Qed.

(** X5. A read without error never delivers the empty string: a problem
    whose expected answer is empty is counted only in a turn whose read
    failed, with the diagnostic printed and the empty string taken. *)
Theorem X5_empty_answer_counted_only_on_failed_read
    (dl : time) (tf : bool) (i : nat) (p : problem) (v v' : vars)
    (out : list action) :
  iteration dl tf i p v = (out, Some v') ->
  answer p = [] ->
  correct v' = S (correct v) ->
  In ScanFailed out /\ answers_of out = [[]].
Proof.
  intros E Hp Hc.
  apply iteration_next in E as (t & a & failed & rest & Es & _ & _ & -> & ->).
  simpl in Hc. destruct (eqs a (answer p)) eqn:Ea; [|lia].
  apply eqs_eq in Ea. rewrite Hp in Ea. subst a.
  destruct (Scanf_delivers _ _ _ _ _ _ Es) as [_ Hf].
  destruct failed; [|exfalso; apply Hf; reflexivity].
  split; [right; left; reflexivity | reflexivity].
Qed.

(** The answers are taken in the order of time. *)
Lemma loop_instants dl sched i ps v :
  Forall (fun t => (now v <= t)%N) (instants_of (fst (problemLoop dl sched i ps v)))
  /\ StronglySorted N.le (instants_of (fst (problemLoop dl sched i ps v))).
Proof.
  revert i v. induction ps as [|p ps IH]; intros i v; simpl.
  - split; constructor.
  - destruct (iteration dl (sched i) i p v) as [out [v'|]] eqn:E.
    + destruct (IH (S i) v') as [Hge Hs].
      destruct (problemLoop dl sched (S i) ps v') as [out' c]. simpl in *.
      apply iteration_next in E as (t & a & failed & rest & Es & _ & _ & -> & ->).
      destruct (answered_turn_trace i p failed t a) as (_ & _ & Et & _).
      cbv zeta in Et. rewrite instants_of_app, Et. simpl in *.
      destruct (Scanf_origin _ _ _ _ _ _ Es) as (_ & _ & _ & Hnow).
      split.
      * constructor; [exact Hnow|].
        eapply Forall_impl; [exact Hge|]. simpl. intros x Hx.
        eapply N.le_trans; eassumption.
      * constructor; assumption.
    + apply iteration_break in E as (d & -> & Hd).
      destruct (timer_turn_trace i p d Hd) as (_ & _ & Et & _).
      cbv zeta in Et. simpl fst. rewrite Et. split; constructor.
Qed.

(** The answers of a session are taken in the order of time: the instants
    at which they are taken never go back. *)
Lemma answers_taken_in_time_order
    (problems : list problem) (timeLimit : Z) (inp : stdin)
    (sched : nat -> bool) :
  StronglySorted N.le
    (instants_of (output (session problems timeLimit inp sched))).
Proof.
  rewrite session_unfold. cbv zeta. simpl output.
  change (instants_of (NewTimer ?d :: ?l)) with (instants_of l).
  rewrite instants_of_app. simpl. rewrite app_nil_r.
  apply loop_instants.
Qed.

End SessionReads.

(** ** Sessions on particular inputs *)

Module SessionInputs.
Import GoString Fmt Quiz1 Notions Trace GoStringFacts ScanFacts SessionFacts.
Import SessionShape.

(** *** The end of the input *)

Lemma unanswered_cons p ps :
  length (unanswered (p :: ps))
  = (if eqs [] (answer p) then 1 else 0) + length (unanswered ps).
Proof.
  unfold unanswered. rewrite filter_cons.
  destruct (decide (answer p = [])) as [E | E].
  - rewrite E. reflexivity.
  - destruct (answer p); [congruence | reflexivity].
Qed.

Lemma loop_drained dl sched i ps v te :
  input v = Stdin [] (Some te) ->
  (N.max (now v) te < dl)%N ->
  problemLoop dl sched i ps v
  = (drained i ps (N.max (now v) te), correct v + length (unanswered ps)).
Proof.
  revert i v. induction ps as [|p ps IH]; intros i v Ei Hlt; simpl.
  - f_equal. unfold unanswered. simpl. lia.
  - unfold iteration, select. rewrite Ei, Scanf_eof.
    destruct (N.ltb_spec (N.max (now v) te) dl) as [_ | Hc]; [|lia].
    rewrite IH; cbn [now input correct]; [|reflexivity | lia].
    rewrite unanswered_cons, (N.max_l (N.max (now v) te) te) by lia.
    cbn [drained]. f_equal. destruct (eqs [] (answer p)); lia.
Qed.

(** X6. When standard input is at its end before the deadline, with
    nothing left to read, no question waits: every question is shown,
    every read fails at once and delivers the empty string, the timer
    case is never taken, and the score is the number of problems whose
    expected answer is empty. *)
Theorem X6_end_of_input_answers_every_question
    (problems : list problem) (timeLimit : Z) (te : time)
    (sched : nat -> bool) :
  (te < fires (limitDuration timeLimit))%N ->
  session problems timeLimit (Stdin [] (Some te)) sched
  = {| output := NewTimer (limitDuration timeLimit)
                   :: drained 0 problems te
                   ++ [Score (length (unanswered problems)) (length problems)];
       score := length (unanswered problems);
       total := length problems |}.
Proof.
  intros Hlt. rewrite session_unfold. cbv zeta.
  rewrite (loop_drained _ sched 0 problems _ te); simpl; [|reflexivity | lia].
  rewrite N.max_r by lia. reflexivity.
Qed.

(** *** Every answer typed in time *)

Lemma latest_before dl t l :
  (t < dl)%N -> before dl l -> (latest t l < dl)%N.
Proof.
  unfold before, latest. intros Ht H. revert t Ht.
  induction H as [|[ta r] l Hx _ IH]; intros t Ht; simpl; [exact Ht|].
  apply IH. simpl in Hx. lia.
Qed.

Lemma loop_all_in_time dl sched es :
  forall i ps v more cl,
    Forall well_typed es ->
    length es = length ps ->
    before dl (flat_map runes_of es) ->
    (now v < dl)%N ->
    input v = Stdin (flat_map runes_of es ++ more) cl ->
    snd (problemLoop dl sched i ps v)
    = correct v + matches (map typed_word es) ps
    /\ answers_of (fst (problemLoop dl sched i ps v)) = map typed_word es
    /\ ~ In TimerFired (fst (problemLoop dl sched i ps v))
    /\ ~ In ScanFailed (fst (problemLoop dl sched i ps v)).
Proof.
  induction es as [|e es IH]; intros i [|p ps] v more cl Hw Hl Hb Hnow Ei;
    try discriminate Hl.
  - simpl. repeat split; auto.
  - apply Forall_cons in Hw as [(B1 & Sw & Hne & B2) Hw].
    simpl in Hb. apply Forall_app in Hb as [Hbe Hb].
    pose proof (latest_before dl (now v) (runes_of e) Hnow Hbe) as Hready.
    assert (Es : Scanf_s_nl (now v) (input v)
                 = Scanned (latest (now v) (runes_of e)) (typed_word e) false
                           (Stdin (flat_map runes_of es ++ more) cl)).
    { rewrite Ei. simpl flat_map. unfold runes_of at 1.
      rewrite <- !app_assoc. simpl.
      rewrite Scanf_one_token by assumption. reflexivity. }
    simpl problemLoop. unfold iteration, select. rewrite Es.
    destruct (N.ltb_spec (latest (now v) (runes_of e)) dl) as [_ | Hc]; [|lia].
    specialize (IH (S i) ps
      {| correct := if eqs (typed_word e) (answer p)
                    then S (correct v) else correct v;
         now := latest (now v) (runes_of e);
         input := Stdin (flat_map runes_of es ++ more) cl |}
      more cl Hw ltac:(simpl in Hl; lia) Hb Hready eq_refl).
    destruct (problemLoop dl sched (S i) ps _) as [out' c].
    simpl in IH. destruct IH as (Hc & Ha & Ht & Hf).
    simpl. split; [|split; [|split]].
    + rewrite Hc. destruct (eqs (typed_word e) (answer p)); lia.
    + f_equal. exact Ha.
    + intros [H | [H | H]]; try discriminate. exact (Ht H).
    + intros [H | [H | H]]; try discriminate. exact (Hf H).
Qed.

(** X8. When one well-formed line per problem is typed (a single word with
    blanks around it) and all of it arrives before the deadline, the timer
    case is not taken, no read fails, the answers taken are the words
    typed, and the score is the number of words equal to the expected
    answer of their problem, however long each line took. *)
Theorem X8_all_answers_in_time_are_all_scored
    (problems : list problem) (timeLimit : Z) (es : list entry)
    (more : list (time * rune)) (cl : option time) (sched : nat -> bool) :
  Forall well_typed es ->
  length es = length problems ->
  before (fires (limitDuration timeLimit)) (flat_map runes_of es) ->
  score (session problems timeLimit (Stdin (flat_map runes_of es ++ more) cl) sched)
  = matches (map typed_word es) problems
  /\ answers_of
       (output (session problems timeLimit
                  (Stdin (flat_map runes_of es ++ more) cl) sched))
     = map typed_word es
  /\ ~ In TimerFired
       (output (session problems timeLimit
                  (Stdin (flat_map runes_of es ++ more) cl) sched))
  /\ ~ In ScanFailed
       (output (session problems timeLimit
                  (Stdin (flat_map runes_of es ++ more) cl) sched)).
Proof.
  intros Hw Hl Hb.
  assert (H : let L := problemLoop (fires (limitDuration timeLimit)) sched 0
                         problems
                         (start (Stdin (flat_map runes_of es ++ more) cl)) in
              snd L = matches (map typed_word es) problems
              /\ answers_of (fst L) = map typed_word es
              /\ ~ In TimerFired (fst L) /\ ~ In ScanFailed (fst L)).
  { destruct es as [|e es].
    - destruct problems; [|discriminate Hl]. simpl. auto.
    - apply (loop_all_in_time _ sched (e :: es) 0 problems
               (start (Stdin (flat_map runes_of (e :: es) ++ more) cl))
               more cl Hw Hl Hb); [|reflexivity].
      simpl in Hb. apply Forall_app in Hb as [Hbe _].
      unfold runes_of in Hbe. rewrite !Forall_app in Hbe.
      destruct Hbe as (_ & _ & _ & Hn). apply Forall_inv in Hn.
      simpl in *. lia. }
  cbv zeta in H. destruct H as (Hc & Ha & Ht & Hf).
  rewrite session_answers, session_timer_fired.
  rewrite session_unfold. cbv zeta. simpl score. simpl output.
  split; [exact Hc|]. split; [exact Ha|]. split; [exact Ht|].
  intros [H | H]; [discriminate|].
  apply in_app_or in H as [H | [H | []]]; [exact (Hf H) | discriminate].
Qed.

End SessionInputs.

(** ** Input that comes after the deadline *)

Module SessionLate.
Import GoString Fmt Quiz1 Notions Trace GoStringFacts ScanFacts SessionFacts.

Lemma Scanf_split now inp :
  Scanf_s_nl now inp
  = scan_from (fst (skipBlanks now (pending inp)))
              (snd (skipBlanks now (pending inp))) (closes inp).
Proof.
  unfold Scanf_s_nl, scan_from.
  destruct (skipBlanks now (pending inp)) as [t1 l1]. reflexivity.
Qed.

Lemma skipBlanks_time t l : (t <= fst (skipBlanks t l))%N.
Proof.
  destruct (skipBlanks t l) as [t' l'] eqn:E.
  apply skipBlanks_origin in E. simpl. tauto.
Qed.

Lemma token_time t l : (t <= snd (fst (token t l)))%N.
Proof.
  destruct (token t l) as [[tok t'] l'] eqn:E.
  apply token_origin in E. simpl. tauto.
Qed.

(** The end of a scan, after the token: it returns no sooner than [t2]. *)
Lemma finish_late dl tok t2 l2 cl :
  (dl < t2)%N ->
  late dl
    (let '(t3, l3) := skipBlanks t2 l2 in
     match l3 with
     | [] =>
         match cl with
         | Some te => Scanned (N.max t3 te) tok false (Stdin [] cl)
         | None => Hangs
         end
     | (tb, c) :: l3' =>
         Scanned (N.max t3 tb) tok (negb (c =? newline)%N) (Stdin l3' cl)
     end).
Proof.
  intros H. pose proof (skipBlanks_time t2 l2) as Ht.
  destruct (skipBlanks t2 l2) as [t3 [|[tb c] l3']]; simpl in *.
  - destruct cl; simpl; [lia | exact I].
  - lia.
Qed.

Lemma scan_from_late dl t1 l1 cl :
  (dl < t1)%N -> late dl (scan_from t1 l1 cl).
Proof.
  intros H. unfold scan_from. destruct l1 as [|[ta r] l1'].
  - destruct cl; simpl; [lia | exact I].
  - destruct (r =? newline)%N; [simpl; lia|].
    pose proof (token_time t1 ((ta, r) :: l1')) as Ht.
    destruct (token t1 ((ta, r) :: l1')) as [[tok t2] l2].
    apply finish_late. simpl in Ht. lia.
Qed.

(** A scan always reads the first rune it is given after the blanks. *)
Lemma scan_from_first_late dl t1 ta r l cl :
  (dl < ta)%N -> isBlank r = false -> late dl (scan_from t1 ((ta, r) :: l) cl).
Proof.
  intros H Hb. unfold scan_from.
  destruct (N.eqb_spec r newline) as [-> | Hnl]; [simpl; lia|].
  assert (Hr : isSpace r = false).
  { unfold isBlank in Hb. destruct (isSpace r); [|reflexivity].
    simpl in Hb. apply negb_false_iff, N.eqb_eq in Hb. contradiction. }
  simpl token. rewrite Hr.
  pose proof (token_time (N.max t1 ta) l) as Ht.
  destruct (token (N.max t1 ta) l) as [[tok t2] l2].
  apply finish_late. simpl in Ht. lia.
Qed.

(** Two inputs that agree up to a rune [x]: a run of blanks either stops
    at the same place in both, at the latest in front of [x], or goes
    through [x] in both. *)
Lemma skipBlanks_sim (pre : list (time * rune)) (x : time * rune)
    (r1 r2 : list (time * rune)) (t0 : time) :
  (exists t' pre',
      skipBlanks t0 (pre ++ x :: r1) = (t', pre' ++ x :: r1)
      /\ skipBlanks t0 (pre ++ x :: r2) = (t', pre' ++ x :: r2)
      /\ (pre' = [] -> isBlank (snd x) = false))
  \/ (exists t',
         (fst x <= t')%N
         /\ skipBlanks t0 (pre ++ x :: r1) = skipBlanks t' r1
         /\ skipBlanks t0 (pre ++ x :: r2) = skipBlanks t' r2).
Proof.
  revert t0. induction pre as [|[ta r] pre IH]; intros t0; simpl.
  - destruct x as [tx rx]. simpl. destruct (isBlank rx) eqn:Hb.
    + right. exists (N.max t0 tx). split; [lia | auto].
    + left. exists t0, []. auto.
  - destruct (isBlank r).
    + apply IH.
    + left. exists t0, ((ta, r) :: pre). repeat split. discriminate.
Qed.

Lemma token_sim (pre : list (time * rune)) (x : time * rune)
    (r1 r2 : list (time * rune)) (t0 : time) :
  (exists tok t' pre',
      token t0 (pre ++ x :: r1) = (tok, t', pre' ++ x :: r1)
      /\ token t0 (pre ++ x :: r2) = (tok, t', pre' ++ x :: r2))
  \/ (exists tok0 t',
         (fst x <= t')%N
         /\ token t0 (pre ++ x :: r1)
            = (tok0 ++ fst (fst (token t' r1)),
               snd (fst (token t' r1)), snd (token t' r1))
         /\ token t0 (pre ++ x :: r2)
            = (tok0 ++ fst (fst (token t' r2)),
               snd (fst (token t' r2)), snd (token t' r2))).
Proof.
  revert t0. induction pre as [|[ta r] pre IH]; intros t0; simpl.
  - destruct x as [tx rx]. simpl. destruct (isSpace rx).
    + left. exists [], t0, []. auto.
    + right. exists [rx], (N.max t0 tx). split; [lia|].
      destruct (token (N.max t0 tx) r1) as [[k1 u1] m1].
      destruct (token (N.max t0 tx) r2) as [[k2 u2] m2]. auto.
  - destruct (isSpace r).
    + left. exists [], t0, ((ta, r) :: pre). auto.
    + destruct (IH (N.max t0 ta)) as
        [(tok & t' & pre' & E1 & E2) | (tok0 & t' & Hx & E1 & E2)].
      * left. rewrite E1, E2. exists (r :: tok), t', pre'. auto.
      * right. rewrite E1, E2. exists (r :: tok0), t'. auto.
Qed.

(** Two scans of inputs that agree up to a rune that comes after the
    deadline: both are late, or both return the same and leave inputs that
    agree up to that rune. *)
Lemma scan_sim (dl now : time) (pre : list (time * rune)) (x : time * rune)
    (r1 r2 : list (time * rune)) (c1 c2 : option time) :
  (dl < fst x)%N ->
  (late dl (Scanf_s_nl now (Stdin (pre ++ x :: r1) c1))
   /\ late dl (Scanf_s_nl now (Stdin (pre ++ x :: r2) c2)))
  \/ (exists ready a failed pre',
         Scanf_s_nl now (Stdin (pre ++ x :: r1) c1)
         = Scanned ready a failed (Stdin (pre' ++ x :: r1) c1)
         /\ Scanf_s_nl now (Stdin (pre ++ x :: r2) c2)
            = Scanned ready a failed (Stdin (pre' ++ x :: r2) c2)).
Proof.
  intros Hx. rewrite !Scanf_split. simpl pending. simpl closes.
  destruct (skipBlanks_sim pre x r1 r2 now)
    as [(t1 & pre1 & E1 & E2 & Hstop) | (t' & Ht' & E1 & E2)];
    rewrite E1, E2.
  2:{ left. split; apply scan_from_late;
        [pose proof (skipBlanks_time t' r1) | pose proof (skipBlanks_time t' r2)];
        lia. }
  simpl fst. simpl snd. destruct pre1 as [|[ta r] pre1'].
  { left. destruct x as [tx rx]. simpl in *.
    split; apply scan_from_first_late; auto. }
  simpl app. unfold scan_from.
  destruct (r =? newline)%N.
  { right. exists (N.max t1 ta), [], true, pre1'. auto. }
  change ((ta, r) :: pre1' ++ x :: r1) with (((ta, r) :: pre1') ++ x :: r1).
  change ((ta, r) :: pre1' ++ x :: r2) with (((ta, r) :: pre1') ++ x :: r2).
  destruct (token_sim ((ta, r) :: pre1') x r1 r2 t1)
    as [(tok & t2 & pre2 & T1 & T2) | (tok0 & t' & Ht' & T1 & T2)];
    rewrite T1, T2.
  2:{ left. split; apply finish_late;
        [pose proof (token_time t' r1) | pose proof (token_time t' r2)]; lia. }
  destruct (skipBlanks_sim pre2 x r1 r2 t2)
    as [(t3 & pre3 & B1 & B2 & _) | (t' & Ht' & B1 & B2)];
    rewrite B1, B2.
  2:{ left.
      pose proof (skipBlanks_time t' r1) as H1.
      pose proof (skipBlanks_time t' r2) as H2.
      destruct (skipBlanks t' r1) as [u1 [|[tb1 k1] m1]];
        destruct (skipBlanks t' r2) as [u2 [|[tb2 k2] m2]];
        simpl in *; destruct c1, c2; simpl; repeat split; lia. }
  destruct pre3 as [|[tb c] pre3'].
  - left. destruct x as [tx rx]. simpl in *. lia.
  - right. simpl app. exists (N.max t3 tb), tok, (negb (c =? newline)%N), pre3'.
    auto.
Qed.

Lemma late_selects_timer dl sc tf :
  late dl sc ->
  select dl sc tf = TimerCase /\ lostDiagnostic dl sc = [].
Proof.
  unfold late, select, lostDiagnostic.
  destruct sc as [ready a failed rest|]; intros H; [|auto].
  destruct (N.ltb_spec ready dl); try lia;
    destruct (N.ltb_spec dl ready); try lia;
    destruct (N.eqb_spec ready dl); try lia; auto.
Qed.

Lemma loop_ignores_late_input (dl : time) sched ps :
  forall i c (t : time) (pre : list (time * rune)) (x : time * rune)
         (r1 r2 : list (time * rune)) (c1 c2 : option time),
    (dl < fst x)%N ->
    problemLoop dl sched i ps
      {| correct := c; now := t; input := Stdin (pre ++ x :: r1) c1 |}
    = problemLoop dl sched i ps
        {| correct := c; now := t; input := Stdin (pre ++ x :: r2) c2 |}.
Proof.
  induction ps as [|p ps IH]; intros i c t pre x r1 r2 c1 c2 Hx; simpl;
    [reflexivity|].
  unfold iteration. simpl now. simpl input. simpl correct.
  destruct (scan_sim dl t pre x r1 r2 c1 c2 Hx)
    as [[L1 L2] | (ready & a & failed & pre' & E1 & E2)].
  - destruct (late_selects_timer dl _ (sched i) L1) as [-> ->].
    destruct (late_selects_timer dl _ (sched i) L2) as [-> ->].
    reflexivity.
  - rewrite E1, E2. unfold select.
    destruct (ready <? dl)%N; [rewrite (IH _ _ _ _ _ r1 r2 c1 c2 Hx); reflexivity|].
    destruct (dl <? ready)%N; [reflexivity|].
    destruct (sched i); [reflexivity|].
    rewrite (IH _ _ _ _ _ r1 r2 c1 c2 Hx). reflexivity.
Qed.

(** X7. What reaches standard input after the first rune that comes later
    than the deadline has no part in the report, and neither has the
    instant at which the stream ends: two inputs that agree up to a rune
    that arrives after the deadline give the same report. *)
Theorem X7_report_ignores_input_after_the_deadline
    (problems : list problem) (timeLimit : Z) (sched : nat -> bool)
    (pre rest1 rest2 : list (time * rune)) (t : time) (r : rune)
    (cl1 cl2 : option time) :
  (fires (limitDuration timeLimit) < t)%N ->
  session problems timeLimit (Stdin (pre ++ (t, r) :: rest1) cl1) sched
  = session problems timeLimit (Stdin (pre ++ (t, r) :: rest2) cl2) sched.
Proof.
  intros Ht. rewrite !session_unfold. cbv zeta.
  rewrite (loop_ignores_late_input _ sched problems 0 0 0%N pre (t, r)
             rest1 rest2 cl1 cl2 Ht).
  reflexivity.
Qed.

End SessionLate.

(** ** The table, the set-up of the quiz *)

Module TableMore.
Import GoString Fmt Quiz1 Notions Trace GoStringFacts ParseLinesFacts.
Import SessionFacts.

Lemma parseLines_app_eq (l1 l2 : list (list gostring)) :
  parseLines (l1 ++ l2)
  = match parseLines l1 with
    | Ok p1 =>
        match parseLines l2 with
        | Ok p2 => Ok (p1 ++ p2)
        | IndexOutOfRange idx len => IndexOutOfRange idx len
        end
    | IndexOutOfRange idx len => IndexOutOfRange idx len
    end.
Proof.
  induction l1 as [|line l1 IH]; simpl.
  - destruct (parseLines l2); reflexivity.
  - destruct (parseLine line) as [p|]; simpl; [|reflexivity].
    rewrite IH. destruct (parseLines l1) as [p1|]; simpl; [|reflexivity].
    destruct (parseLines l2); reflexivity.
Qed.

(** X9. The rows are parsed one after the other: the problems of two
    tables put end to end are the problems of the first followed by those
    of the second, and a panic in the first table is the panic of the
    whole, whatever the second holds. *)
Theorem X9_parseLines_of_tables_end_to_end (l1 l2 : list (list gostring)) :
  parseLines (l1 ++ l2)
  = match parseLines l1 with
    | Ok p1 =>
        match parseLines l2 with
        | Ok p2 => Ok (p1 ++ p2)
        | IndexOutOfRange idx len => IndexOutOfRange idx len
        end
    | IndexOutOfRange idx len => IndexOutOfRange idx len
    end.
Proof. apply parseLines_app_eq. Qed.

(** X10. The panic of [parseLines] is that of the first row with fewer
    than two fields: index and length are both the number of fields of
    that row, and the rows after it are not looked at. *)
Theorem X10_first_short_row_panics
    (good : list (list gostring)) (short : list gostring)
    (rest : list (list gostring)) :
  Forall (fun line => 2 <= length line) good ->
  length short < 2 ->
  parseLines (good ++ short :: rest)
  = IndexOutOfRange (length short) (length short).
Proof.
  intros Hg Hs. rewrite parseLines_app_eq.
  destruct (parseLines_all_two good Hg) as [ps [-> _]].
  simpl. rewrite (parseLine_short short Hs). reflexivity.
Qed.

Lemma TrimSpace_idem (s : gostring) : TrimSpace (TrimSpace s) = TrimSpace s.
Proof.
  destruct (TrimSpace_trimmed s) as (_ & Hh & Hl).
  transitivity (TrimSpace ([] ++ TrimSpace s ++ [])).
  - simpl. rewrite app_nil_r. reflexivity.
  - apply TrimSpace_padded; auto.
Qed.

(** X11. The problems that [parseLines] returns are already trimmed:
    written back as rows of two fields and parsed again, they come out
    unchanged. *)
Theorem X11_parsed_problems_parse_to_themselves
    (lines : list (list gostring)) (ps : list problem) :
  parseLines lines = Ok ps ->
  parseLines (map (fun p => [question p; answer p]) ps) = Ok ps.
Proof.
  revert ps. induction lines as [|line lines IH]; simpl; intros ps.
  - intros [= <-]. reflexivity.
  - destruct (Nat.lt_ge_cases (length line) 2) as [Hs | Hl].
    + rewrite (parseLine_short line Hs). discriminate.
    + destruct (parseLine_two line Hl) as (f0 & f1 & _ & _ & ->). simpl.
      destruct (parseLines lines) as [qs|]; simpl; [|discriminate].
      intros [= <-]. cbn [map question answer parseLines].
      unfold parseLine at 1. cbn [index lookup list_lookup bind question answer].
      rewrite !TrimSpace_idem, (IH qs eq_refl). reflexivity.
Qed.

(** X12. Once the file is read, [RunQuiz1] either panics on a row with
    fewer than two fields, before a timer is made or a question shown, or
    runs the quiz on as many problems as the table has rows: the total of
    the score line is the number of rows, and the score is no more. *)
Theorem X12_quiz_runs_on_every_row_or_panics
    (lines : list (list gostring)) (timeLimit : Z) (inp : stdin)
    (sched : nat -> bool) :
  (Forall (fun line => 2 <= length line) lines
   /\ exists r,
        RunQuiz1 (Rows lines) timeLimit inp sched = Finished r
        /\ total r = length lines
        /\ score r <= length lines
        /\ length (prompts_of (output r)) <= length lines)
  \/ (Exists (fun line => length line < 2) lines
      /\ exists n,
           RunQuiz1 (Rows lines) timeLimit inp sched = Panicked n n
           /\ n < 2).
Proof.
  unfold RunQuiz1. destruct (parseLines lines) as [ps | idx len] eqn:E.
  - assert (Hall : Forall (fun line => 2 <= length line) lines).
    { apply Forall_forall. intros line Hin.
      destruct (Nat.lt_ge_cases (length line) 2) as [Hlen | Hok]; [|exact Hok].
      exfalso.
      apply list_elem_of_In, in_split in Hin as (l1 & l2 & ->).
      rewrite parseLines_app_eq in E.
      destruct (parseLines l1); [|discriminate]. simpl in E.
      rewrite (parseLine_short line Hlen) in E. discriminate. }
    left. split; [exact Hall|].
    destruct (parseLines_all_two lines Hall) as (ps' & E' & F).
    rewrite E in E'. injection E' as <-.
    pose proof (Forall2_length _ _ _ F) as Hlen.
    eexists. split; [reflexivity|].
    rewrite session_unfold. cbv zeta. simpl total. simpl score. simpl output.
    pose proof (problemLoop_score (fires (limitDuration timeLimit)) sched 0
                  ps (start inp)) as Hs. simpl in Hs.
    destruct (SessionShape.loop_shape (fires (limitDuration timeLimit)) sched 0
                ps (start inp)) as (k & Hk & Hp & _).
    split; [lia|]. split; [unfold start in Hs; lia|].
    change (prompts_of (NewTimer ?d :: ?l)) with (prompts_of l).
    rewrite SessionShape.prompts_of_app. simpl. rewrite app_nil_r.
    unfold start in Hp. rewrite Hp.
    assert (Hn : forall i qs, length (numbered i qs) = length qs).
    { intros i qs. revert i. induction qs; intros i; simpl; auto. }
    rewrite Hn, length_take. lia.
  - right. destruct (parseLines_panic lines idx len E)
      as (line & Hin & Hl & -> & Hlt).
    split.
    + apply Exists_exists. exists line. split; [apply list_elem_of_In, Hin | lia].
    + exists len. auto.
Qed.

(** X3. The duration given to the timer is the limit in nanoseconds
    exactly for the limits from -9223372036 to 9223372036 seconds: beyond
    them the product leaves [int64] and wraps. Whatever the limit, the
    duration is an [int64]; and for a limit from -9223372036 to 0 the
    timer fires at once. *)
Theorem X3_limit_is_exact_within_int64 (timeLimit : Z) :
  (limitDuration timeLimit = timeLimit * Second
   <-> -9223372036 <= timeLimit <= 9223372036)%Z
  /\ (- 2 ^ 63 <= limitDuration timeLimit < 2 ^ 63)%Z
  /\ ((-9223372036 <= timeLimit <= 0)%Z ->
      fires (limitDuration timeLimit) = 0%N).
Proof.
  unfold limitDuration, wrap64, Second.
  pose proof (Z.mod_pos_bound (timeLimit * 1000000000 + 2 ^ 63) (2 ^ 64)
                ltac:(lia)) as Hb.
  split; [split|split].
  - intros H. lia.
  - intros H. rewrite Z.mod_small; lia.
  - lia.
  - intros H. rewrite Z.mod_small by lia. unfold fires.
    destruct (timeLimit * 1000000000 + 2 ^ 63 - 2 ^ 63)%Z eqn:E; try reflexivity.
    lia.
Qed.

End TableMore.

(** ** json_parsing *)

Module JsonParsingFacts.
Import GoString GoStringFacts JsonParsing.

Lemma removeAge_any_order {V : Type} (ks : list gostring) (m : gmap gostring V) :
  removeAge ks m
  = if decide (of_string "Age" ∈ ks) then delete (of_string "Age") m else m.
Proof.
  unfold removeAge. revert m. induction ks as [|k ks IH]; intros m.
  - destruct (decide (of_string "Age" ∈ [])) as [Hin | _]; [|reflexivity].
    apply elem_of_nil in Hin. destruct Hin.
  - cbn [foldl]. rewrite IH. destruct (eqs k (of_string "Age")) eqn:Ek.
    + apply eqs_eq in Ek. subst k.
      destruct (decide (of_string "Age" ∈ of_string "Age" :: ks)) as [_ | Hn].
      * destruct (decide (of_string "Age" ∈ ks));
          [apply delete_delete_eq | reflexivity].
      * exfalso. apply Hn, list_elem_of_here.
    + assert (Hk : k <> of_string "Age").
      { intros Heq. apply eqs_eq in Heq. congruence. }
      destruct (decide (of_string "Age" ∈ ks)) as [Hin | Hin];
        destruct (decide (of_string "Age" ∈ k :: ks)) as [Hc | Hc];
        try reflexivity.
      * exfalso. apply Hc, list_elem_of_further, Hin.
      * exfalso. apply elem_of_cons in Hc as [Hc | Hc]; congruence.
Qed.

(** X13. The loop that drops the key [Age] from a decoded object gives the
    same map in whatever order the [range] hands out the keys: the map
    without the entry of [Age], with every other entry as it was, keys
    that differ from [Age] only by case included. *)
Theorem X13_removeAge_deletes_exactly_Age
    {V : Type} (ks : list gostring) (m : gmap gostring V) :
  ks ≡ₚ (map_to_list m).*1 ->
  removeAge ks m = delete (of_string "Age") m
  /\ removeAge ks m !! of_string "Age" = None
  /\ (forall k, k <> of_string "Age" -> removeAge ks m !! k = m !! k).
Proof.
  intros Hp.
  assert (E : removeAge ks m = delete (of_string "Age") m).
  { rewrite removeAge_any_order. destruct (decide _) as [_ | Hn]; [reflexivity|].
    symmetry. apply delete_id. apply not_elem_of_dom.
    intros Hd. apply Hn. rewrite Hp.
    apply elem_of_dom in Hd as [x Hx].
    apply list_elem_of_fmap. exists (of_string "Age", x).
    split; [reflexivity|]. apply elem_of_map_to_list, Hx. }
  rewrite E. split; [reflexivity|]. split.
  - apply lookup_delete_eq.
  - intros k Hk. apply lookup_delete_ne. congruence.
Qed.

End JsonParsingFacts.

(** ** Instances *)

Module MoreScenarios.
Import GoString Fmt Quiz1 Notions Trace JsonParsing.
Import SessionReads SessionInputs SessionLate TableMore JsonParsingFacts.

Lemma X5_empty_answer_counted_only_on_failed_read_witness :
  iteration (10 * one_second) true 0
    {| question := of_string "q"; answer := [] |}
    (start (Stdin (typed 5 "") None))
  = ([Prompt 1 (of_string "q"); ScanFailed; Answered 5 []],
     Some {| correct := 1; now := 5%N; input := Stdin [] None |})
  /\ In ScanFailed [Prompt 1 (of_string "q"); ScanFailed; Answered 5 []]
  /\ answers_of [Prompt 1 (of_string "q"); ScanFailed; Answered 5 []] = [[]].
Proof.
  assert (E : iteration (10 * one_second) true 0
    {| question := of_string "q"; answer := [] |}
    (start (Stdin (typed 5 "") None))
  = ([Prompt 1 (of_string "q"); ScanFailed; Answered 5 []],
     Some {| correct := 1; now := 5%N; input := Stdin [] None |})).
  { vm_compute. reflexivity. }
  split; [exact E|].
  exact (X5_empty_answer_counted_only_on_failed_read
           _ _ _ _ _ _ _ E eq_refl eq_refl).
Defined.

Lemma X6_end_of_input_answers_every_question_witness :
  (7 < fires (limitDuration 10))%N
  /\ session two_problems 10 (Stdin [] (Some 7%N)) (fun _ => true)
     = {| output := NewTimer (limitDuration 10)
                      :: drained 0 two_problems 7
                      ++ [Score (length (unanswered two_problems))
                                (length two_problems)];
          score := length (unanswered two_problems);
          total := length two_problems |}.
Proof.
  assert (H : (7 < fires (limitDuration 10))%N) by (vm_compute; reflexivity).
  split; [exact H|].
  exact (X6_end_of_input_answers_every_question two_problems 10 7 _ H).
Defined.

Lemma X7_report_ignores_input_after_the_deadline_witness :
  (fires (limitDuration 1) < 2 * one_second)%N
  /\ session two_problems 1
       (Stdin (typed 5 "4" ++ ((2 * one_second)%N, 54%N)
                 :: typed (2 * one_second) "")
              None)
       (fun _ => true)
     = session two_problems 1
         (Stdin (typed 5 "4" ++ ((2 * one_second)%N, 54%N) :: [])
                (Some (3 * one_second)%N))
         (fun _ => true).
Proof.
  assert (H : (fires (limitDuration 1) < 2 * one_second)%N)
    by (vm_compute; reflexivity).
  split; [exact H|].
  exact (X7_report_ignores_input_after_the_deadline
           two_problems 1 _ (typed 5 "4") _ _ (2 * one_second) 54%N _ _ H).
Defined.

Lemma X8_all_answers_in_time_are_all_scored_witness :
  score (session two_problems 10
           (Stdin (flat_map runes_of two_lines ++ []) None) (fun _ => true))
  = matches (map typed_word two_lines) two_problems.
Proof.
  refine (proj1 (X8_all_answers_in_time_are_all_scored
                   two_problems 10 two_lines [] None (fun _ => true)
                   _ eq_refl _)).
  - repeat constructor; discriminate.
  - unfold before.
    cbn [flat_map two_lines runes_of lead word trail enter app].
    repeat (constructor; [vm_compute; reflexivity|]). constructor.
Defined.

Lemma X10_first_short_row_panics_witness :
  parseLines ([[of_string "2+2"; of_string "4"]]
                ++ [of_string "3+3"] :: [[]])
  = IndexOutOfRange 1 1.
Proof.
  refine (X10_first_short_row_panics
            [[of_string "2+2"; of_string "4"]] [of_string "3+3"] [[]] _ _).
  - repeat constructor.
  - repeat constructor.
Defined.

Lemma X11_parsed_problems_parse_to_themselves_witness :
  parseLines (map (fun p => [question p; answer p]) two_problems)
  = Ok two_problems.
Proof.
  exact (X11_parsed_problems_parse_to_themselves
           [[of_string " 2+2 "; of_string "4 "]; [of_string "3+3"; of_string " 6"]]
           two_problems eq_refl).
Defined.

Lemma X13_removeAge_deletes_exactly_Age_witness :
  removeAge
    (map_to_list
       (<[of_string "Name" := 1]> (<[of_string "Age" := 25]> ∅))).*1
    (<[of_string "Name" := 1]> (<[of_string "Age" := 25]> ∅) : gmap gostring nat)
    !! of_string "Age" = None.
Proof.
  exact (proj1 (proj2 (X13_removeAge_deletes_exactly_Age
    (map_to_list
       (<[of_string "Name" := 1]> (<[of_string "Age" := 25]> ∅))).*1
    (<[of_string "Name" := 1]> (<[of_string "Age" := 25]> ∅) : gmap gostring nat)
    (reflexivity _)))).
Defined.

End MoreScenarios.
